(** * Stock tracker: the fee/tax calculator and the portfolio accounting engine

    A shallow embedding of [src/App.tsx]: the trade calculator
    [calculateTransactionAmount], the replay inside the [useMemo] that
    derives [holdings] and [realizedGains], and the form handler
    [handleAddTransaction].

    Number model.  A JavaScript [number] is modelled by an exact rational
    ([Q]): [+], [-], [*], [/] are the field operations, [Math.floor] is
    [Qfloor], comparisons are the rational order.  Rounding of binary64
    arithmetic, [NaN] and the infinities are outside this model; the
    specification states its identities up to floating epsilon, and the
    divisions of the modelled code are all guarded by a [> 0] test.

    Object model.  The two [Record<string, ...>] accumulators and the
    [manualPrices] object are finite maps keyed by ticker
    ([gmap string _]).  The objects stored in them are mutated in place by
    the source through the aliases [h] and [r]; here the updated record is
    written back under the same key.  The enumeration order of
    [Object.values] is not modelled: the derived holdings and realized
    items are kept as maps keyed by ticker. *)

From Stdlib Require Import ZArith QArith Qround Lqa Lia List Permutation Sorted.
From Stdlib Require Import Ascii String.
From stdpp Require Import base option gmap strings list fin_maps.

Local Open Scope Q_scope.

(** ** Numbers *)

(** [a > b] and [a <= b] on numbers, as booleans. *)
Definition gtb (a b : Q) : bool :=
  match b ?= a with Lt => true | _ => false end.

Definition leb (a b : Q) : bool := Qle_bool a b.

(** [Math.max(a, b)] and [Math.floor(x)]. *)
Definition Math_max (a b : Q) : Q := if Qle_bool a b then b else a.

Definition Math_floor (x : Q) : Q := inject_Z (Qfloor x).

(** The literal [0.000001] of the normalization test. *)
Definition epsilon : Q := 1 # 1000000.

(** ** Interface definitions *)

Inductive MarketType := TW | US.
Inductive CurrencyType := TWD | USD.
Inductive TradeType := buy | sell.

Record Transaction := mkTransaction {
  t_id : string;
  t_date : string;
  t_ticker : string;
  t_name : string;
  t_type : TradeType;
  t_market : MarketType;
  t_price : Q;
  t_shares : Q;
  t_isETF : bool;
  t_fee : Q;
  t_tax : Q;
  t_totalAmount : Q
}.

Record Holding := mkHolding {
  h_ticker : string;
  h_name : string;
  h_market : MarketType;
  h_currency : CurrencyType;
  h_shares : Q;
  h_avgCost : Q;
  h_totalCost : Q;
  h_marketValue : Q;
  h_unrealizedPL : Q;
  h_roi : Q;
  h_isETF : bool
}.

Record RealizedItem := mkRealizedItem {
  r_ticker : string;
  r_name : string;
  r_market : MarketType;
  r_currency : CurrencyType;
  r_realizedPL : Q;
  r_totalCost : Q;
  r_totalRevenue : Q;
  r_roi : Q;
  r_tradeCount : nat;
  r_isETF : bool
}.

Record AppSettings := mkAppSettings {
  twFeeRate : Q;
  twDiscount : Q;
  twTaxRateStock : Q;
  twTaxRateETF : Q;
  twMinFee : Q;
  usFeeRate : Q;
  usMinFee : Q;
  usTaxRate : Q
}.

Definition DEFAULT_SETTINGS : AppSettings := {|
  twFeeRate := 1425 # 1000000;
  twDiscount := 6 # 10;
  twTaxRateStock := 3 # 1000;
  twTaxRateETF := 1 # 1000;
  twMinFee := 20;
  usFeeRate := 1 # 1000;
  usMinFee := 0;
  usTaxRate := 8 # 1000000
|}.

(** The element type of [tempHoldings]. *)
Record TempHolding := mkTempHolding {
  th_ticker : string;
  th_name : string;
  th_market : MarketType;
  th_shares : Q;
  th_totalCost : Q;
  th_isETF : bool
}.

Definition currencyOf (m : MarketType) : CurrencyType :=
  match m with TW => TWD | US => USD end.

(** ** The trade calculator *)

Record Amount := mkAmount { fee : Q; tax : Q; total : Q }.

Definition calculateTransactionAmount (settings : AppSettings)
    (type : TradeType) (market : MarketType) (price shares : Q)
    (isETF : bool) : Amount :=
  let rawAmount := price * shares in
  let fee :=
    match market with
    | TW => Math_max (twMinFee settings)
              (Math_floor (rawAmount * twFeeRate settings * twDiscount settings))
    | US => Math_max (usMinFee settings) (rawAmount * usFeeRate settings)
    end in
  let tax :=
    match market with
    | TW => match type with
            | sell => Math_floor (rawAmount *
                        (if isETF then twTaxRateETF settings
                         else twTaxRateStock settings))
            | buy => 0
            end
    | US => match type with
            | sell => rawAmount * usTaxRate settings
            | buy => 0
            end
    end in
  let total :=
    match type with
    | buy => rawAmount + fee
    | sell => rawAmount - fee - tax
    end in
  {| fee := fee; tax := tax; total := total |}.

(** ** The replay *)

(** The two accumulators built by the [forEach]. *)
Record Temp := mkTemp {
  tempHoldings : gmap string TempHolding;
  tempRealized : gmap string RealizedItem
}.

Definition emptyTemp : Temp := {| tempHoldings := ∅; tempRealized := ∅ |}.

Definition initHolding (t : Transaction) : TempHolding := {|
  th_ticker := t_ticker t;
  th_name := t_name t;
  th_market := t_market t;
  th_shares := 0;
  th_totalCost := 0;
  th_isETF := t_isETF t
|}.

Definition initRealized (t : Transaction) : RealizedItem := {|
  r_ticker := t_ticker t;
  r_name := t_name t;
  r_market := t_market t;
  r_currency := currencyOf (t_market t);
  r_realizedPL := 0;
  r_totalCost := 0;
  r_totalRevenue := 0;
  r_roi := 0;
  r_tradeCount := 0;
  r_isETF := t_isETF t
|}.

(** [if (!m[k]) m[k] = v]: the stored values are objects, hence truthy,
    so the test is a test of absence. *)
Definition ensure {A : Type} (k : string) (v : A) (m : gmap string A) :
    gmap string A :=
  match m !! k with
  | Some _ => m
  | None => <[k := v]> m
  end.

Definition setPosition (h : TempHolding) (shares totalCost : Q) : TempHolding :=
  {| th_ticker := th_ticker h; th_name := th_name h; th_market := th_market h;
     th_shares := shares; th_totalCost := totalCost; th_isETF := th_isETF h |}.

(** The [buy]/[sell] branch of the loop body, on the two aliased records. *)
Definition applyTrade (t : Transaction) (h : TempHolding) (r : RealizedItem) :
    TempHolding * RealizedItem :=
  match t_type t with
  | buy =>
      (setPosition h (th_shares h + t_shares t) (th_totalCost h + t_totalAmount t), r)
  | sell =>
      if gtb (th_shares h) 0 then
        let avgCost := th_totalCost h / th_shares h in
        let costOfSoldShares := avgCost * t_shares t in
        let realizedAmount := t_totalAmount t - costOfSoldShares in
        (setPosition h (th_shares h - t_shares t) (th_totalCost h - costOfSoldShares),
         {| r_ticker := r_ticker r; r_name := r_name r; r_market := r_market r;
            r_currency := r_currency r;
            r_realizedPL := r_realizedPL r + realizedAmount;
            r_totalCost := r_totalCost r + costOfSoldShares;
            r_totalRevenue := r_totalRevenue r + t_totalAmount t;
            r_roi := r_roi r;
            r_tradeCount := S (r_tradeCount r);
            r_isETF := r_isETF r |})
      else (h, r)
  end.

(** [if (h.shares <= 0.000001) { h.shares = 0; h.totalCost = 0; }] *)
Definition normalize (h : TempHolding) : TempHolding :=
  if leb (th_shares h) epsilon then setPosition h 0 0 else h.

(** One iteration of [sortedTrans.forEach]. *)
Definition process (st : Temp) (t : Transaction) : Temp :=
  let k := t_ticker t in
  let hs := ensure k (initHolding t) (tempHoldings st) in
  let rs := ensure k (initRealized t) (tempRealized st) in
  match hs !! k, rs !! k with
  | Some h, Some r =>
      let '(h1, r1) := applyTrade t h r in
      {| tempHoldings := <[k := normalize h1]> hs;
         tempRealized := <[k := r1]> rs |}
  | _, _ => {| tempHoldings := hs; tempRealized := rs |}
  end.

Definition replay (l : list Transaction) : Temp := fold_left process l emptyTemp.

(** ** [Array.prototype.sort] *)

(** The sort of the language is stable, and on a comparator that is a
    difference of keys its result is the one stable arrangement by
    non-decreasing key.  It is modelled by a stable insertion sort:
    [x] moves past [y] only when [compareFn x y > 0]. *)
Section ArraySort.
Context {A : Type} (compareFn : A → A → Z).

Fixpoint sortInsert (x : A) (l : list A) : list A :=
  match l with
  | [] => [x]
  | y :: l' =>
      if (compareFn x y <=? 0)%Z then x :: y :: l' else y :: sortInsert x l'
  end.

Definition Array_sort (l : list A) : list A := foldr sortInsert [] l.
End ArraySort.

(** ** The derivation of holdings and realized gains *)

(** [m[k] || 0] *)
Definition orZero (o : option Q) : Q :=
  match o with
  | Some p => if Qeq_bool p 0 then 0 else p
  | None => 0
  end.

(** The estimated cost of selling the whole position at [currentPrice]:
    the two branches of [if (h.market === 'TW')] in the [.map]. *)
Definition estSellFee (settings : AppSettings) (currentPrice : Q)
    (h : TempHolding) : Q :=
  match th_market h with
  | TW => Math_max (twMinFee settings)
            (Math_floor (currentPrice * th_shares h * twFeeRate settings
                         * twDiscount settings))
  | US => Math_max (usMinFee settings)
            (currentPrice * th_shares h * usFeeRate settings)
  end.

Definition estSellTax (settings : AppSettings) (currentPrice : Q)
    (h : TempHolding) : Q :=
  match th_market h with
  | TW => Math_floor (currentPrice * th_shares h *
            (if th_isETF h then twTaxRateETF settings
             else twTaxRateStock settings))
  | US => currentPrice * th_shares h * usTaxRate settings
  end.

(** The body of the [.map] that turns an open position into a [Holding]. *)
Definition valuation (settings : AppSettings) (manualPrices : gmap string Q)
    (h : TempHolding) : Holding :=
  let currentPrice := orZero (manualPrices !! th_ticker h) in
  let avgCost :=
    if gtb (th_shares h) 0 then th_totalCost h / th_shares h else 0 in
  let marketValue :=
    currentPrice * th_shares h - estSellFee settings currentPrice h
    - estSellTax settings currentPrice h in
  let unrealizedPL := marketValue - th_totalCost h in
  let roi :=
    if gtb (th_totalCost h) 0 then unrealizedPL / th_totalCost h * 100 else 0 in
  {| h_ticker := th_ticker h; h_name := th_name h; h_market := th_market h;
     h_currency := currencyOf (th_market h);
     h_shares := th_shares h; h_avgCost := avgCost;
     h_totalCost := th_totalCost h; h_marketValue := marketValue;
     h_unrealizedPL := unrealizedPL; h_roi := roi; h_isETF := th_isETF h |}.

Definition withRoi (r : RealizedItem) : RealizedItem :=
  {| r_ticker := r_ticker r; r_name := r_name r; r_market := r_market r;
     r_currency := r_currency r; r_realizedPL := r_realizedPL r;
     r_totalCost := r_totalCost r; r_totalRevenue := r_totalRevenue r;
     r_roi := if gtb (r_totalCost r) 0
              then r_realizedPL r / r_totalCost r * 100 else 0;
     r_tradeCount := r_tradeCount r; r_isETF := r_isETF r |}.

Record Derived := mkDerived {
  holdings : gmap string Holding;
  realizedGains : gmap string RealizedItem
}.

Section Derivation.
(** [getTime s] is [new Date(s).getTime()] on the date strings of the
    log. *)
Variable getTime : string → Z.

Definition byDate (a b : Transaction) : Z :=
  (getTime (t_date a) - getTime (t_date b))%Z.

Definition sortedTrans (transactions : list Transaction) : list Transaction :=
  Array_sort byDate transactions.

(** The two accumulators after the [forEach]. *)
Definition accumulate (transactions : list Transaction) : Temp :=
  replay (sortedTrans transactions).

Definition derive (transactions : list Transaction)
    (manualPrices : gmap string Q) (settings : AppSettings) : Derived :=
  let acc := accumulate transactions in
  {| holdings :=
       valuation settings manualPrices <$>
         filter (λ kv, gtb (th_shares kv.2) 0 = true) (tempHoldings acc);
     realizedGains :=
       withRoi <$>
         filter (λ kv, (0 < r_tradeCount kv.2)%nat) (tempRealized acc) |}.
End Derivation.

(** ** The add-transaction form *)

Record Form := mkForm {
  f_date : string;
  f_ticker : string;
  f_name : string;
  f_type : TradeType;
  f_market : MarketType;
  f_price : string;
  f_shares : string;
  f_isETF : bool
}.

Record AppState := mkAppState {
  transactions : list Transaction;
  settings : AppSettings;
  manualPrices : gmap string Q;
  showAddModal : bool;
  form : Form
}.

(** Truthiness of a string: every string but the empty one. *)
Definition truthy (s : string) : bool :=
  match s with
  | EmptyString => false
  | String _ _ => true
  end.

(** [toUpperCase] on the ASCII letters. *)
Definition upperAscii (c : ascii) : ascii :=
  let n := nat_of_ascii c in
  if ((97 <=? n) && (n <=? 122))%nat then ascii_of_nat (n - 32) else c.

Fixpoint toUpperCase (s : string) : string :=
  match s with
  | EmptyString => EmptyString
  | String c s' => String (upperAscii c) (toUpperCase s')
  end.

Section AddTransaction.
(** [parseFloat] of the language, on the texts that denote a number, and
    the text of [Date.now().toString()] at the time of the call. *)
Variable parseFloat : string → Q.
Variable now : string.

Definition handleAddTransaction (st : AppState) : AppState :=
  let form := form st in
  if negb (truthy (f_ticker form)) || negb (truthy (f_price form))
     || negb (truthy (f_shares form)) then st
  else
    let priceNum := parseFloat (f_price form) in
    let sharesNum := parseFloat (f_shares form) in
    let a := calculateTransactionAmount (settings st) (f_type form)
               (f_market form) priceNum sharesNum (f_isETF form) in
    let newTrans := {|
      t_id := now;
      t_date := f_date form;
      t_ticker := toUpperCase (f_ticker form);
      t_name := if truthy (f_name form) then f_name form
                else toUpperCase (f_ticker form);
      t_type := f_type form;
      t_market := f_market form;
      t_price := priceNum;
      t_shares := sharesNum;
      t_isETF := f_isETF form;
      t_fee := fee a;
      t_tax := tax a;
      t_totalAmount := total a |} in
    {| transactions := transactions st ++ [newTrans];
       settings := settings st;
       manualPrices :=
         match f_type form with
         | buy => <[t_ticker newTrans := priceNum]> (manualPrices st)
         | sell => manualPrices st
         end;
       showAddModal := false;
       form := {| f_date := f_date form; f_ticker := f_ticker form;
                  f_name := f_name form; f_type := f_type form;
                  f_market := f_market form; f_price := EmptyString;
                  f_shares := EmptyString; f_isETF := f_isETF form |} |}.
End AddTransaction.

(** The value of a decimal digit. *)
Definition digitOf (c : ascii) : option Z :=
  let n := nat_of_ascii c in
  if ((48 <=? n) && (n <=? 57))%nat then Some (Z.of_nat (n - 48)) else None.

Fixpoint readDigits (s : string) (acc : Z) (count : nat) : Z * nat * string :=
  match s with
  | String c s' =>
      match digitOf c with
      | Some d => readDigits s' (acc * 10 + d)%Z (S count)
      | None => (acc, count, s)
      end
  | EmptyString => (acc, count, s)
  end.

Definition parseUnsigned (s : string) : Q :=
  let '(int, _, rest) := readDigits s 0%Z 0%nat in
  match rest with
  | String "."%char frac =>
      let '(num, places, _) := readDigits frac 0%Z 0%nat in
      inject_Z int + inject_Z num / inject_Z (10 ^ Z.of_nat places)
  | _ => inject_Z int
  end.

(** A reader of plain decimal literals ([-12], [3.75], [+0.5]); on these
    it returns what [parseFloat] returns.  It is the instance of
    [parseFloat] used on concrete forms. *)
Definition parseDecimal (s : string) : Q :=
  match s with
  | String "-"%char s' => - parseUnsigned s'
  | String "+"%char s' => parseUnsigned s'
  | _ => parseUnsigned s
  end.

(** ** The accumulators of one ticker, read with their initial values

    A ticker not yet seen has no entry; its accumulators are the zeros
    that the lazy initialization would store. *)
Definition position (st : Temp) (k : string) : Q * Q :=
  match tempHoldings st !! k with
  | Some h => (th_shares h, th_totalCost h)
  | None => (0, 0)
  end.

Definition realizedAcc (st : Temp) (k : string) : Q * Q * Q * nat :=
  match tempRealized st !! k with
  | Some r => (r_realizedPL r, r_totalCost r, r_totalRevenue r, r_tradeCount r)
  | None => (0, 0, 0, 0%nat)
  end.

Definition sumQ (l : list Q) : Q := foldr Qplus 0 l.

(** ** The calculator as the specification words it *)

Definition grossAmount (price shares : Q) : Q := price * shares.

Definition specFee (c : AppSettings) (market : MarketType) (gross : Q) : Q :=
  match market with
  | TW => Math_max (twMinFee c) (Math_floor (gross * twFeeRate c * twDiscount c))
  | US => Math_max (usMinFee c) (gross * usFeeRate c)
  end.

Definition specTax (c : AppSettings) (side : TradeType) (market : MarketType)
    (isFundLike : bool) (gross : Q) : Q :=
  match side with
  | buy => 0
  | sell =>
      match market with
      | TW => Math_floor (gross * (if isFundLike then twTaxRateETF c
                                   else twTaxRateStock c))
      | US => gross * usTaxRate c
      end
  end.

Definition specSettlement (side : TradeType) (gross fee tax : Q) : Q :=
  match side with
  | buy => gross + fee
  | sell => gross - fee - tax
  end.

(** ** Auxiliary definitions for the statements *)

(** The records that the aliases [h] and [r] denote in an iteration. *)
Definition currentHolding (st : Temp) (t : Transaction) : TempHolding :=
  default (initHolding t) (tempHoldings st !! t_ticker t).

Definition currentRealized (st : Temp) (t : Transaction) : RealizedItem :=
  default (initRealized t) (tempRealized st !! t_ticker t).

(** The cost retired by a sell of [tradeShares] against the position [h]. *)
Definition costRetired (h : TempHolding) (tradeShares : Q) : Q :=
  th_totalCost h / th_shares h * tradeShares.

Definition retire (r : RealizedItem) (settlementAmount cost : Q) : RealizedItem :=
  {| r_ticker := r_ticker r; r_name := r_name r; r_market := r_market r;
     r_currency := r_currency r;
     r_realizedPL := r_realizedPL r + (settlementAmount - cost);
     r_totalCost := r_totalCost r + cost;
     r_totalRevenue := r_totalRevenue r + settlementAmount;
     r_roi := r_roi r;
     r_tradeCount := r_tradeCount r + 1;
     r_isETF := r_isETF r |}.

(** The comparator [(a, b) => key(a) - key(b)] and the order it sorts by. *)
Definition byKey {A : Type} (key : A → Z) (a b : A) : Z := (key a - key b)%Z.

Definition keyLe {A : Type} (key : A → Z) (a b : A) : Prop := (key a <= key b)%Z.

(** ** Invariants of the replay *)

(** A position at or below the threshold is the exact closed position. *)
Definition closedExact (h : TempHolding) : Prop :=
  th_shares h <= epsilon → th_shares h = 0 ∧ th_totalCost h = 0.

Definition nonNegative (h : TempHolding) : Prop :=
  0 <= th_shares h ∧ 0 <= th_totalCost h.

Definition holdingsSatisfy (P : TempHolding → Prop) (st : Temp) : Prop :=
  ∀ k h, tempHoldings st !! k = Some h → P h.

Definition keyedByTicker (h : TempHolding) (k : string) : Prop := th_ticker h = k.

(** The transactions of one ticker. *)
Definition tickerTrades (k : string) (l : list Transaction) : list Transaction :=
  filter (λ t, t_ticker t = k) l.

(** ** The log as an array in the store *)




(** The three fields that the handler tests are non-empty. *)
Definition formComplete (f : Form) : Prop :=
  f_ticker f ≠ EmptyString ∧ f_price f ≠ EmptyString ∧ f_shares f ≠ EmptyString.

(** ** Concrete data *)

(** On dates written [yyyy-mm-dd] the digits read as one number order the
    dates as their time values do; this is the [getTime] of the concrete
    logs below. *)
Fixpoint digitsValue (s : string) (acc : Z) : Z :=
  match s with
  | EmptyString => acc
  | String c s' =>
      match digitOf c with
      | Some d => digitsValue s' (acc * 10 + d)%Z
      | None => digitsValue s' acc
      end
  end.

Definition dateKey (s : string) : Z := digitsValue s 0%Z.

(** A transaction as the form handler builds it under the default
    settings. *)
Definition trade (date ticker : string) (type : TradeType) (market : MarketType)
    (price shares : Q) : Transaction :=
  let a := calculateTransactionAmount DEFAULT_SETTINGS type market price shares false in
  {| t_id := date; t_date := date; t_ticker := ticker; t_name := ticker;
     t_type := type; t_market := market; t_price := price; t_shares := shares;
     t_isETF := false; t_fee := fee a; t_tax := tax a; t_totalAmount := total a |}.

Definition buyAAPL : Transaction := trade "2024-03-01" "AAPL" buy US 100 10.
Definition buyTSMC : Transaction := trade "2024-03-01" "2330" buy TW 500 1000.
Definition sellAAPL : Transaction := trade "2024-03-05" "AAPL" sell US 120 4.
Definition sellAllAAPL : Transaction := trade "2024-03-07" "AAPL" sell US 120 6.
Definition sellAgainAAPL : Transaction := trade "2024-03-09" "AAPL" sell US 130 5.

Definition exampleLog : list Transaction := [sellAAPL; buyAAPL; buyTSMC].

Definition examplePrices : gmap string Q := {[ "AAPL"%string := 125 ]}.

Definition openAAPL : TempHolding :=
  Eval vm_compute in currentHolding (replay [buyAAPL; buyTSMC]) sellAAPL.

Definition realizedAAPL : RealizedItem :=
  Eval vm_compute in currentRealized (replay [buyAAPL; buyTSMC]) sellAAPL.

Definition visibleAAPL : Holding :=
  Eval vm_compute in
    valuation DEFAULT_SETTINGS examplePrices
      (currentHolding (replay [buyAAPL; buyTSMC; sellAAPL]) sellAAPL).

Definition blankForm (ticker price shares : string) : Form :=
  {| f_date := "2024-03-01"; f_ticker := ticker; f_name := EmptyString;
     f_type := buy; f_market := TW; f_price := price; f_shares := shares;
     f_isETF := false |}.

Definition stateWith (f : Form) : AppState :=
  {| transactions := []; settings := DEFAULT_SETTINGS;
     manualPrices := {[ "A"%string := 55 ]}; showAddModal := true; form := f |}.

(** The form of a buy at the price [-10]. *)
Definition negativePriceState : AppState := stateWith (blankForm "a" "-10" "10").

(** A buy of half a millionth of a share. *)
Definition tinyBuy : Transaction :=
  trade "2024-03-01" "TINY" buy US 100 (parseDecimal "0.0000005").

(** ** Deleting transactions *)

(** [confirmDelete] and [confirmDeleteTicker] read the delete target
    ([string | null]) and clear it; they return the new state and the new
    target.  A [null] or empty target is falsy and nothing happens. *)
Definition withTransactions (st : AppState) (l : list Transaction) : AppState :=
  {| transactions := l; settings := settings st;
     manualPrices := manualPrices st; showAddModal := showAddModal st;
     form := form st |}.

Definition withManualPrices (st : AppState) (m : gmap string Q) : AppState :=
  {| transactions := transactions st; settings := settings st;
     manualPrices := m; showAddModal := showAddModal st; form := form st |}.

Definition confirmDelete (deleteTargetId : option string) (st : AppState) :
    AppState * option string :=
  match deleteTargetId with
  | Some id =>
      if truthy id then
        (withTransactions st (filter (λ t, t_id t ≠ id) (transactions st)), None)
      else (st, deleteTargetId)
  | None => (st, deleteTargetId)
  end.


(** ** The manual price *)

Section UpdatePrice.
(** [parseFloat] with its [NaN] result, which [updatePrice] tests for:
    [None] stands for [NaN]. *)
Variable parseNumber : string → option Q.

Definition updatePrice (ticker newPrice : string) (st : AppState) : AppState :=
  match parseNumber newPrice with
  | Some price => withManualPrices st (<[ticker := price]> (manualPrices st))
  | None => st
  end.
End UpdatePrice.

(** ** The transaction list on display *)



(** ** Sorting a table by a column *)

Inductive Direction := asc | desc.

Section SortedData.
(** [field key a] is [a[key]]; [ltb] is [<] on the values of a column,
    and [x > y] is [y < x]. *)
Context {T V : Type} (field : string → T → V) (ltb : V → V → bool).

Definition sortComparator (key : string) (direction : Direction) (a b : T) : Z :=
  if ltb (field key a) (field key b) then
    match direction with asc => (-1)%Z | desc => 1%Z end
  else if ltb (field key b) (field key a) then
    match direction with asc => 1%Z | desc => (-1)%Z end
  else 0%Z.

Definition getSortedData (sortConfig : option (string * Direction))
    (data : list T) : list T :=
  match sortConfig with
  | None => data
  | Some (key, direction) => Array_sort (sortComparator key direction) data
  end.
End SortedData.

Definition requestSort (key : string) (sortConfig : option (string * Direction)) :
    option (string * Direction) :=
  let direction :=
    match sortConfig with
    | Some (k, desc) => if decide (k = key) then asc else desc
    | _ => desc
    end in
  Some (key, direction).

(** ** The totals of the dashboard *)

Record MarketStats := mkMarketStats {
  s_marketValue : Q;
  s_totalCost : Q;
  s_unrealizedPL : Q;
  s_roi : Q
}.

Definition calc (list : list Holding) : MarketStats :=
  let marketValue := fold_left (λ sum h, sum + h_marketValue h) list 0 in
  let totalCost := fold_left (λ sum h, sum + h_totalCost h) list 0 in
  let unrealizedPL := marketValue - totalCost in
  let roi := if gtb totalCost 0 then unrealizedPL / totalCost * 100 else 0 in
  {| s_marketValue := marketValue; s_totalCost := totalCost;
     s_unrealizedPL := unrealizedPL; s_roi := roi |}.

Definition isMarket (m : MarketType) (h : Holding) : bool :=
  match m, h_market h with
  | TW, TW | US, US => true
  | _, _ => false
  end.

(** [stats]: the pair of the [TW] and the [US] totals. *)
Definition stats (holdings : list Holding) : MarketStats * MarketStats :=
  (calc (filter (λ h, isMarket TW h = true) holdings),
   calc (filter (λ h, isMarket US h = true) holdings)).

(** The derived holdings as an array, in some order. *)
Definition holdingsArray (d : Derived) : list Holding :=
  (map_to_list (holdings d)).*2.

(** ** Auxiliary definitions for the further statements *)

Definition isSell (t : Transaction) : bool :=
  match t_type t with sell => true | buy => false end.

(** A whole number. *)
Definition isInteger (x : Q) : Prop := ∃ z : Z, x = inject_Z z.

(** The fees and rates of a configuration are not negative. *)
Definition settingsNonNegative (c : AppSettings) : Prop :=
  0 <= twFeeRate c ∧ 0 <= twDiscount c ∧ 0 <= twTaxRateStock c
  ∧ 0 <= twTaxRateETF c ∧ 0 <= twMinFee c ∧ 0 <= usFeeRate c
  ∧ 0 <= usMinFee c ∧ 0 <= usTaxRate c.

Definition buysNonNegative (l : list Transaction) : Prop :=
  ∀ t, t ∈ l → t_type t = buy → 0 <= t_totalAmount t.

(** The realized profit is the revenue less the cost retired. *)
Definition balanced (r : RealizedItem) : Prop :=
  r_realizedPL r == r_totalRevenue r - r_totalCost r.

Definition realizedSatisfy (P : string → RealizedItem → Prop) (st : Temp) : Prop :=
  ∀ k r, tempRealized st !! k = Some r → P k r.

(** The derivation on the state of the application: the [useMemo] over
    [transactions], [manualPrices] and [settings]. *)
Definition deriveState (getTime : string → Z) (st : AppState) : Derived :=
  derive getTime (transactions st) (manualPrices st) (settings st).

(** The minimum fee of a market. *)
Definition minFeeOf (c : AppSettings) (market : MarketType) : Q :=
  match market with TW => twMinFee c | US => usMinFee c end.

(** The rows of a table are in the order of a column: no row is greater
    than a later one ([ascending]) or less than a later one
    ([descending]). *)
Definition inColumnOrder {T V : Type} (field : string → T → V)
    (ltb : V → V → bool) (key : string) (direction : Direction) (a b : T) : Prop :=
  match direction with
  | asc => ltb (field key b) (field key a) = false
  | desc => ltb (field key a) (field key b) = false
  end.

(** ** Further concrete data *)

Definition oversellAAPL : Transaction := trade "2024-03-08" "AAPL" sell US 120 8.

(** The position and the realized item of AAPL after the buy of 10 and
    the sell of 4. *)
Definition partAAPL : TempHolding :=
  Eval vm_compute in currentHolding (replay [buyAAPL; sellAAPL]) sellAAPL.

Definition soldAAPL : RealizedItem :=
  Eval vm_compute in
    withRoi (currentRealized (replay [buyAAPL; buyTSMC; sellAAPL]) sellAAPL).

Definition exampleState : AppState :=
  {| transactions := exampleLog; settings := DEFAULT_SETTINGS;
     manualPrices := examplePrices; showAddModal := false;
     form := blankForm "msft" "60" "10" |}.

(** A reader of numeric text with a [NaN] result: the digits of a plain
    decimal literal, nothing for the empty text. *)
Definition parseDecimalOrNaN (s : string) : option Q :=
  if truthy s then Some (parseDecimal s) else None.

(** ** The running conditions of the replay

    [p ++ t :: rest] splits a replayed list at the transaction [t]: [p] is
    what the replay has processed before it. *)

(** No buy of the ticker leaves its cost basis negative. *)
Definition buysKeepCostBasis (k : string) (l : list Transaction) : Prop :=
  ∀ p t rest, l = p ++ t :: rest → t_type t = buy → t_ticker t = k →
    0 <= (position (replay (p ++ [t])) k).2.

(** After each transaction of the ticker (each buy, in a log of buys) its
    open shares exceed the threshold of the normalization. *)
Definition buysStayOpen (k : string) (l : list Transaction) : Prop :=
  ∀ p t rest, l = p ++ t :: rest → t_ticker t = k →
    epsilon < (position (replay p) k).1 + t_shares t.

(** The position of AAPL after the buy of 10, the sell of 4 and the sell of
    the 6 left. *)
Definition closedAAPL : TempHolding :=
  Eval vm_compute in
    currentHolding (replay [buyAAPL; sellAAPL; sellAllAAPL]) sellAAPL.

(** A buy of one share of the ticker of [tinyBuy]. *)
Definition buyOne : Transaction := trade "2024-03-01" "TINY" buy US 100 1.

(** * Properties *)

(** ** Numbers *)

Lemma gtb_true (a b : Q) : gtb a b = true ↔ b < a.
Proof.
  unfold gtb. rewrite Qlt_alt. destruct (b ?= a); split; congruence.
Qed.

Lemma gtb_false (a b : Q) : gtb a b = false ↔ a <= b.
Proof.
  rewrite <- not_true_iff_false, gtb_true. split.
  - apply Qnot_lt_le.
  - apply Qle_not_lt.
Qed.

Lemma leb_true (a b : Q) : leb a b = true ↔ a <= b.
Proof. apply Qle_bool_iff. Qed.

Lemma leb_false (a b : Q) : leb a b = false ↔ b < a.
Proof.
  rewrite <- not_true_iff_false, leb_true. split.
  - apply Qnot_le_lt.
  - apply Qlt_not_le.
Qed.

Lemma epsilon_pos : 0 < epsilon.
Proof. reflexivity. Qed.

(** ** The calculator *)

(** C2. For every side, market, price, share count, fund-like flag and
    configuration, [calculateTransactionAmount] returns the fee, the tax
    and the settlement amount of the specification: the domestic fee is
    the larger of the minimum fee and the floored discounted fee, the
    domestic tax is floored and levied on a sell only, the foreign fee and
    tax are not rounded, and the settlement amount is gross plus fee on a
    buy and gross minus fee minus tax on a sell, with gross the product of
    price and share count.  It holds for every price and share count,
    positive or not. *)
Theorem calculateTransactionAmount_spec (c : AppSettings) (side : TradeType)
    (market : MarketType) (price shares : Q) (isFundLike : bool) :
  let gross := grossAmount price shares in
  let a := calculateTransactionAmount c side market price shares isFundLike in
  fee a = specFee c market gross
  ∧ tax a = specTax c side market isFundLike gross
  ∧ total a = specSettlement side gross (fee a) (tax a).
Proof.
  destruct side, market; cbn; repeat split.
Qed.

(** Reference values: 100 x 1000 domestic, floored fee 85; 150.5 x 10
    foreign, unrounded fee 1.505; a domestic sell of a fund pays the floored
    fund tax. *)
Example domestic_fee_is_floored :
  fee (calculateTransactionAmount DEFAULT_SETTINGS buy TW 100 1000 false) == 85.
Proof. reflexivity. Qed.

Example foreign_fee_is_not_rounded :
  fee (calculateTransactionAmount DEFAULT_SETTINGS buy US (301 # 2) 10 false)
  == 1505 # 1000.
Proof. reflexivity. Qed.

Example domestic_fund_sell :
  let a := calculateTransactionAmount DEFAULT_SETTINGS sell TW 100 1000 true in
  fee a == 85 ∧ tax a == 100 ∧ total a == 99815.
Proof. repeat split. Qed.

Lemma Math_max_upper (a b : Q) :
  a <= Math_max a b ∧ b <= Math_max a b ∧ (Math_max a b = a ∨ Math_max a b = b).
Proof.
  unfold Math_max. destruct (Qle_bool a b) eqn:E.
  - apply Qle_bool_iff in E. repeat split; [assumption | apply Qle_refl | now right].
  - assert (b < a) by (apply leb_false; exact E).
    repeat split; [apply Qle_refl | now apply Qlt_le_weak | now left].
Qed.

Lemma Math_floor_bounds (x : Q) : Math_floor x <= x ∧ x < Math_floor x + 1.
Proof.
  unfold Math_floor. split; [apply Qfloor_le |].
  pose proof (Qlt_floor x) as H. rewrite inject_Z_plus in H. exact H.
Qed.

(** ** One iteration of the replay *)

Lemma ensure_lookup {A : Type} (k : string) (v : A) (m : gmap string A) :
  ensure k v m !! k = Some (default v (m !! k)).
Proof.
  unfold ensure. destruct (m !! k) eqn:E; cbn.
  - exact E.
  - apply lookup_insert_eq.
Qed.

Lemma ensure_lookup_ne {A : Type} (k k' : string) (v : A) (m : gmap string A) :
  k ≠ k' → ensure k v m !! k' = m !! k'.
Proof.
  intros Hne. unfold ensure. destruct (m !! k); [reflexivity |].
  now apply lookup_insert_ne.
Qed.

Lemma insert_ensure {A : Type} (k : string) (v w : A) (m : gmap string A) :
  <[k := w]> (ensure k v m) = <[k := w]> m.
Proof.
  unfold ensure. destruct (m !! k); [reflexivity |]. apply insert_insert_eq.
Qed.

Lemma process_unfold (st : Temp) (t : Transaction) :
  process st t =
    let hr := applyTrade t (currentHolding st t) (currentRealized st t) in
    {| tempHoldings := <[t_ticker t := normalize hr.1]> (tempHoldings st);
       tempRealized := <[t_ticker t := hr.2]> (tempRealized st) |}.
Proof.
  unfold process. rewrite !ensure_lookup.
  fold (currentHolding st t) (currentRealized st t).
  destruct (applyTrade t (currentHolding st t) (currentRealized st t)) as [h1 r1].
  cbn. now rewrite !insert_ensure.
Qed.

Lemma process_holding (st : Temp) (t : Transaction) :
  tempHoldings (process st t) !! t_ticker t =
    Some (normalize (applyTrade t (currentHolding st t) (currentRealized st t)).1).
Proof. rewrite process_unfold. cbn. apply lookup_insert_eq. Qed.

Lemma process_realized (st : Temp) (t : Transaction) :
  tempRealized (process st t) !! t_ticker t =
    Some (applyTrade t (currentHolding st t) (currentRealized st t)).2.
Proof. rewrite process_unfold. cbn. apply lookup_insert_eq. Qed.

Lemma process_holding_ne (st : Temp) (t : Transaction) (k : string) :
  t_ticker t ≠ k → tempHoldings (process st t) !! k = tempHoldings st !! k.
Proof. intros Hne. rewrite process_unfold. cbn. now apply lookup_insert_ne. Qed.

Lemma process_realized_ne (st : Temp) (t : Transaction) (k : string) :
  t_ticker t ≠ k → tempRealized (process st t) !! k = tempRealized st !! k.
Proof. intros Hne. rewrite process_unfold. cbn. now apply lookup_insert_ne. Qed.

Lemma replay_snoc (l : list Transaction) (t : Transaction) :
  replay (l ++ [t]) = process (replay l) t.
Proof. unfold replay. now rewrite fold_left_app. Qed.

(** C1. A sell processed while the ticker's open shares are positive
    performs the weighted-average retirement step: with the average cost
    [totalCost / shares] and the cost retired [avgCost * tradeShares], the
    realized record gains [settlementAmount - costRetired] of profit,
    [costRetired] of cost, [settlementAmount] of revenue and one trade;
    the position loses [costRetired] of cost basis and [tradeShares]
    shares (and is then normalized).  The cost retired and the cost basis
    left by the retirement add up to the previous cost basis, and the
    gain realized by the sell is the settlement amount less the cost
    retired. *)
Theorem sell_retires_average_cost (st : Temp) (t : Transaction)
    (h : TempHolding) (r : RealizedItem) :
  t_type t = sell →
  tempHoldings st !! t_ticker t = Some h →
  tempRealized st !! t_ticker t = Some r →
  0 < th_shares h →
  let cost := costRetired h (t_shares t) in
  let remaining := th_totalCost h - cost in
  tempRealized (process st t) !! t_ticker t
    = Some (retire r (t_totalAmount t) cost)
  ∧ tempHoldings (process st t) !! t_ticker t
    = Some (normalize (setPosition h (th_shares h - t_shares t) remaining))
  ∧ cost + remaining == th_totalCost h
  ∧ r_realizedPL (retire r (t_totalAmount t) cost) - r_realizedPL r
    == t_totalAmount t - cost.
Proof.
  intros Hsell Hh Hr Hpos cost remaining.
  rewrite process_holding, process_realized.
  unfold currentHolding, currentRealized. rewrite Hh, Hr. cbn.
  unfold applyTrade. rewrite Hsell.
  apply gtb_true in Hpos. rewrite Hpos. cbn.
  repeat split.
  - unfold retire. now rewrite Nat.add_1_r.
  - unfold remaining. ring.
  - ring.
Qed.

(** The step, on the sell of 4 of the 10 shares bought at 100. *)
Lemma sell_retires_average_cost_witness :
  let cost := costRetired openAAPL (t_shares sellAAPL) in
  let remaining := th_totalCost openAAPL - cost in
  tempRealized (process (replay [buyAAPL; buyTSMC]) sellAAPL) !! "AAPL"%string
    = Some (retire realizedAAPL (t_totalAmount sellAAPL) cost)
  ∧ tempHoldings (process (replay [buyAAPL; buyTSMC]) sellAAPL) !! "AAPL"%string
    = Some (normalize (setPosition openAAPL
              (th_shares openAAPL - t_shares sellAAPL) remaining))
  ∧ cost + remaining == th_totalCost openAAPL
  ∧ r_realizedPL (retire realizedAAPL (t_totalAmount sellAAPL) cost)
    - r_realizedPL realizedAAPL
    == t_totalAmount sellAAPL - cost.
Proof.
  apply (sell_retires_average_cost (replay [buyAAPL; buyTSMC]) sellAAPL
           openAAPL realizedAAPL).
  - reflexivity.
  - vm_compute. reflexivity.
  - vm_compute. reflexivity.
  - reflexivity.
Defined.

(** ** The sort *)

Section SortByKey.
Context {A : Type} (key : A → Z).

Local Abbreviation byKey := (byKey key).
Local Abbreviation keyLe := (keyLe key).

Lemma sortInsert_Permutation (x : A) (l : list A) :
  Permutation (sortInsert byKey x l) (x :: l).
Proof.
  induction l as [| y l IH]; cbn; [reflexivity |].
  destruct (byKey x y <=? 0)%Z; [reflexivity |].
  rewrite IH. apply perm_swap.
Qed.

Lemma Array_sort_Permutation (l : list A) :
  Permutation (Array_sort byKey l) l.
Proof.
  induction l as [| x l IH]; cbn; [reflexivity |].
  rewrite sortInsert_Permutation. now constructor.
Qed.

Lemma sortInsert_sorted (x : A) (l : list A) :
  StronglySorted keyLe l → StronglySorted keyLe (sortInsert byKey x l).
Proof.
  induction 1 as [| y l Hl IH Hy]; cbn.
  - repeat constructor.
  - destruct (Z.leb_spec (byKey x y) 0) as [Hle | Hgt]; unfold byKey in *.
    + constructor; [now constructor |].
      constructor; [unfold keyLe; lia |].
      eapply Forall_impl; [exact Hy |]. unfold keyLe. intros z Hz. cbn in Hz. lia.
    + constructor; [exact IH |].
      rewrite (sortInsert_Permutation x l).
      constructor; [unfold keyLe; lia | exact Hy].
Qed.

Lemma Array_sort_sorted (l : list A) : StronglySorted keyLe (Array_sort byKey l).
Proof.
  induction l as [| x l IH]; cbn; [constructor |]. now apply sortInsert_sorted.
Qed.

(** Stability: the elements of one key keep their order. *)
Lemma sortInsert_filter (d : Z) (x : A) (l : list A) :
  filter (λ a, key a = d) (sortInsert byKey x l)
  = filter (λ a, key a = d) (x :: l).
Proof.
  induction l as [| y l IH]; cbn; [reflexivity |].
  destruct (Z.leb_spec (byKey x y) 0) as [Hle | Hgt]; [reflexivity |].
  unfold byKey in Hgt.
  rewrite (filter_cons _ y), IH, !filter_cons.
  destruct (decide (key y = d)), (decide (key x = d)); try reflexivity. lia.
Qed.

Lemma Array_sort_stable (d : Z) (l : list A) :
  filter (λ a, key a = d) (Array_sort byKey l) = filter (λ a, key a = d) l.
Proof.
  induction l as [| x l IH]; [reflexivity |].
  change (Array_sort byKey (x :: l)) with (sortInsert byKey x (Array_sort byKey l)).
  rewrite sortInsert_filter, !filter_cons, IH. reflexivity.
Qed.

Lemma filter_all (P : A → Prop) `{!∀ a, Decision (P a)} (l : list A) :
  Forall P l → filter P l = l.
Proof.
  induction 1 as [| x l Hx _ IH]; [reflexivity |].
  rewrite filter_cons_True by exact Hx. now rewrite IH.
Qed.

(** A log of one key is sorted already. *)
Lemma Array_sort_same_key (d : Z) (l : list A) :
  Forall (λ a, key a = d) l → Array_sort byKey l = l.
Proof.
  intros Hl. rewrite <- (filter_all (λ a, key a = d) l Hl) at 2.
  rewrite <- (Array_sort_stable d l). symmetry. apply filter_all.
  now rewrite Array_sort_Permutation.
Qed.
End SortByKey.

Lemma sortedTrans_Permutation (getTime : string → Z) (log : list Transaction) :
  Permutation (sortedTrans getTime log) log.
Proof. apply (Array_sort_Permutation (λ t, getTime (t_date t))). Qed.

(** ** The replay keeps its invariants *)

Lemma normalize_closedExact (h : TempHolding) : closedExact (normalize h).
Proof.
  unfold closedExact, normalize. destruct (leb (th_shares h) epsilon) eqn:E.
  - cbn. now split.
  - apply leb_false in E. intros Hle.
    exfalso. eapply Qlt_not_le; [exact E | exact Hle].
Qed.

Lemma normalize_shares_nonneg (h : TempHolding) : 0 <= th_shares (normalize h).
Proof.
  unfold normalize. destruct (leb (th_shares h) epsilon) eqn:E; cbn.
  - apply Qle_refl.
  - apply leb_false in E. pose proof epsilon_pos. lra.
Qed.

Lemma normalize_open (h : TempHolding) :
  epsilon < th_shares h → normalize h = h.
Proof. intros H. unfold normalize. apply leb_false in H. now rewrite H. Qed.

Lemma normalize_closed (h : TempHolding) :
  th_shares h <= epsilon → normalize h = setPosition h 0 0.
Proof. intros H. unfold normalize. apply leb_true in H. now rewrite H. Qed.

Lemma retire_leaves_cost_nonneg (tc sh ts : Q) :
  0 <= tc → 0 < sh → 0 <= sh - ts → 0 <= tc - tc / sh * ts.
Proof.
  intros Htc Hsh Hrem.
  assert (Ha : 0 <= tc / sh).
  { apply Qle_shift_div_l; [exact Hsh | lra]. }
  assert (E : tc - tc / sh * ts == tc / sh * (sh - ts)).
  { field. intros H0. rewrite H0 in Hsh. now apply Qlt_irrefl in Hsh. }
  rewrite E. now apply Qmult_le_0_compat.
Qed.

(** The loop body keeps the cost basis non-negative, provided a buy does
    not bring a negative settlement amount. *)
Lemma applyTrade_nonNegative (t : Transaction) (h : TempHolding) (r : RealizedItem) :
  (t_type t = buy → 0 <= t_totalAmount t) →
  nonNegative h →
  nonNegative (normalize (applyTrade t h r).1).
Proof.
  intros Hbuy [Hs Hc]. split; [apply normalize_shares_nonneg |].
  unfold applyTrade. destruct (t_type t) eqn:Ety.
  - cbn. unfold normalize. cbn.
    destruct (leb _ epsilon); cbn; [apply Qle_refl |].
    specialize (Hbuy eq_refl). lra.
  - destruct (gtb (th_shares h) 0) eqn:Epos; cbn.
    + apply gtb_true in Epos. unfold normalize; cbn.
      destruct (leb (th_shares h - t_shares t) epsilon) eqn:E; cbn;
        [apply Qle_refl |].
      apply leb_false in E. pose proof epsilon_pos.
      apply retire_leaves_cost_nonneg; [exact Hc | exact Epos | lra].
    + unfold normalize. destruct (leb _ epsilon); cbn; [apply Qle_refl | exact Hc].
Qed.

Lemma holdingsSatisfy_empty (P : TempHolding → Prop) : holdingsSatisfy P emptyTemp.
Proof. intros k h H. cbn in H. now rewrite lookup_empty in H. Qed.

Lemma process_closedExact (st : Temp) (t : Transaction) :
  holdingsSatisfy closedExact st → holdingsSatisfy closedExact (process st t).
Proof.
  intros Hst k h Hk. destruct (decide (t_ticker t = k)) as [<- | Hne].
  - rewrite process_holding in Hk. injection Hk as <-. apply normalize_closedExact.
  - rewrite process_holding_ne in Hk by exact Hne. eapply Hst, Hk.
Qed.

Lemma initHolding_nonNegative (t : Transaction) : nonNegative (initHolding t).
Proof. split; cbn; apply Qle_refl. Qed.

Lemma process_nonNegative (st : Temp) (t : Transaction) :
  (t_type t = buy → 0 <= t_totalAmount t) →
  holdingsSatisfy nonNegative st → holdingsSatisfy nonNegative (process st t).
Proof.
  intros Hbuy Hst k h Hk. destruct (decide (t_ticker t = k)) as [<- | Hne].
  - rewrite process_holding in Hk. injection Hk as <-.
    apply applyTrade_nonNegative; [exact Hbuy |].
    unfold currentHolding. destruct (tempHoldings st !! t_ticker t) eqn:E; cbn.
    + eapply Hst, E.
    + apply initHolding_nonNegative.
  - rewrite process_holding_ne in Hk by exact Hne. eapply Hst, Hk.
Qed.

Lemma replay_closedExact (l : list Transaction) :
  holdingsSatisfy closedExact (replay l).
Proof.
  induction l as [| t l IH] using rev_ind.
  - apply holdingsSatisfy_empty.
  - rewrite replay_snoc. now apply process_closedExact.
Qed.

Lemma replay_nonNegative (l : list Transaction) :
  (∀ t, t ∈ l → t_type t = buy → 0 <= t_totalAmount t) →
  holdingsSatisfy nonNegative (replay l).
Proof.
  induction l as [| t l IH] using rev_ind; intros Hl.
  - apply holdingsSatisfy_empty.
  - rewrite replay_snoc. apply process_nonNegative.
    + apply Hl. apply elem_of_app. right. now apply list_elem_of_singleton.
    + apply IH. intros t' Ht'. apply Hl. apply elem_of_app. now left.
Qed.

Lemma replay_shares_nonneg (l : list Transaction) :
  holdingsSatisfy (λ h, 0 <= th_shares h) (replay l).
Proof.
  induction l as [| t l IH] using rev_ind.
  - apply holdingsSatisfy_empty.
  - rewrite replay_snoc. intros k h Hk.
    destruct (decide (t_ticker t = k)) as [<- | Hne].
    + rewrite process_holding in Hk. injection Hk as <-.
      apply normalize_shares_nonneg.
    + rewrite process_holding_ne in Hk by exact Hne. eapply IH, Hk.
Qed.

Lemma buysKeepCostBasis_prefix (k : string) (l : list Transaction)
    (t : Transaction) :
  buysKeepCostBasis k (l ++ [t]) → buysKeepCostBasis k l.
Proof.
  intros H p t' rest ->. apply (H p t' (rest ++ [t])).
  now rewrite <- app_assoc.
Qed.

(** Only a buy can take a cost basis below zero: sells, the transactions
    of other tickers and the normalization keep it non-negative. *)
Lemma replay_cost_basis_kept (k : string) (l : list Transaction) :
  buysKeepCostBasis k l → 0 <= (position (replay l) k).2.
Proof.
  induction l as [| t l IH] using rev_ind; intros Hl.
  - unfold position. cbn. rewrite lookup_empty. apply Qle_refl.
  - specialize (IH (buysKeepCostBasis_prefix _ _ _ Hl)).
    destruct (decide (t_ticker t = k)) as [Hk | Hne].
    + destruct (t_type t) eqn:Ety.
      * now apply (Hl l t []).
      * subst k. rewrite replay_snoc. unfold position in *.
        rewrite process_holding. cbn.
        apply applyTrade_nonNegative; [congruence |].
        unfold currentHolding.
        destruct (tempHoldings (replay l) !! t_ticker t) as [h |] eqn:E; cbn.
        -- split; [exact (replay_shares_nonneg l _ _ E) | exact IH].
        -- apply initHolding_nonNegative.
    + rewrite replay_snoc. unfold position in *.
      now rewrite process_holding_ne.
Qed.

(** C3 (amended). For every log and every ticker, after each transaction
    of the replay (every prefix of the sorted log) the ticker's open shares
    are non-negative, and a stored position whose shares are at or below
    [0.000001] has shares and cost basis exactly [0].  Its cost basis is
    non-negative as long as no buy of the ticker has left the cost basis
    negative; in particular when every buy of the log carries a
    non-negative settlement amount. *)
Theorem replay_positions_nonnegative (getTime : string → Z)
    (log pre post : list Transaction) (k : string) (h : TempHolding) :
  sortedTrans getTime log = pre ++ post →
  tempHoldings (replay pre) !! k = Some h →
  0 <= th_shares h
  ∧ (th_shares h <= epsilon → th_shares h = 0 ∧ th_totalCost h = 0)
  ∧ (buysKeepCostBasis k pre → 0 <= th_totalCost h)
  ∧ (buysNonNegative log → 0 <= th_totalCost h).
Proof.
  intros Hsplit Hk.
  split; [exact (replay_shares_nonneg pre k h Hk) |].
  split; [exact (replay_closedExact pre k h Hk) |].
  split.
  - intros Hkeep. pose proof (replay_cost_basis_kept k pre Hkeep) as H.
    unfold position in H. now rewrite Hk in H.
  - intros Hlog.
    assert (Hpre : ∀ t, t ∈ pre → t_type t = buy → 0 <= t_totalAmount t).
    { intros t Ht. apply Hlog.
      rewrite <- (sortedTrans_Permutation getTime log), Hsplit.
      apply elem_of_app. now left. }
    exact (proj2 (replay_nonNegative pre Hpre k h Hk)).
Qed.

(** The position of AAPL after the buy of 10, the sell of 4 and the sell of
    the 6 left, from a log that lists the last sell first: the position is
    at the threshold and is exactly closed. *)
Lemma replay_positions_nonnegative_witness :
  0 <= th_shares closedAAPL
  ∧ (th_shares closedAAPL = 0 ∧ th_totalCost closedAAPL = 0)
  ∧ 0 <= th_totalCost closedAAPL.
Proof.
  destruct (replay_positions_nonnegative dateKey
              [sellAllAAPL; buyAAPL; sellAAPL]
              [buyAAPL; sellAAPL; sellAllAAPL] [] "AAPL" closedAAPL)
    as (Hshares & Hreset & Hcost & _).
  - vm_compute. reflexivity.
  - vm_compute. reflexivity.
  - split; [exact Hshares |]. split.
    + apply Hreset. discriminate.
    + apply Hcost. intros p t rest E Hbuy _.
      destruct p as [| x1 [| x2 [| x3 p]]]; cbn in E; injection E as;
        subst; try discriminate Hbuy.
      * discriminate.
      * now destruct p.
Defined.

(** C3 as stated fails: the form accepts a buy at the price [-10]; its
    settlement amount is [-100 + 20], and the replay of that log has a
    cost basis of [-80] for 10 open shares. *)
Lemma negative_buy_makes_cost_basis_negative :
  let log := transactions (handleAddTransaction parseDecimal "1" negativePriceState) in
  match tempHoldings (accumulate dateKey log) !! "A"%string with
  | Some h => th_shares h == 10 ∧ th_totalCost h == -80 ∧ ¬ (0 <= th_totalCost h)
  | None => False
  end.
Proof.
  vm_compute. split; [reflexivity |]. split; [reflexivity |].
  intros H. now apply H.
Qed.

Lemma applyTrade_sell_closed (t : Transaction) (h : TempHolding) (r : RealizedItem) :
  t_type t = sell → th_shares h = 0 → applyTrade t h r = (h, r).
Proof. intros Hsell Hs. unfold applyTrade. now rewrite Hsell, Hs. Qed.

Lemma normalize_zero (h : TempHolding) :
  th_shares h = 0 →
  (th_shares (normalize h), th_totalCost (normalize h)) = (0, 0).
Proof. intros Hs. unfold normalize. now rewrite Hs. Qed.

(** C4. A sell against a ticker whose open shares are zero, reached after
    any sequence of processed transactions, leaves the ticker's
    open-position accumulator and its realized accumulator unchanged; the
    trade count does not move. *)
Theorem sell_on_closed_position_is_noop (pre : list Transaction) (t : Transaction) :
  t_type t = sell →
  (position (replay pre) (t_ticker t)).1 == 0 →
  position (process (replay pre) t) (t_ticker t) = position (replay pre) (t_ticker t)
  ∧ realizedAcc (process (replay pre) t) (t_ticker t)
    = realizedAcc (replay pre) (t_ticker t).
Proof.
  intros Hsell Hzero.
  pose proof (replay_closedExact pre (t_ticker t)) as Hinv.
  unfold position, realizedAcc in *.
  rewrite process_holding, process_realized.
  unfold currentHolding, currentRealized.
  destruct (tempHoldings (replay pre) !! t_ticker t) as [h |] eqn:Eh; cbn in *.
  - destruct (Hinv h eq_refl) as [Hs Hc].
    { rewrite Hzero. apply Qlt_le_weak, epsilon_pos. }
    rewrite applyTrade_sell_closed by assumption. cbn.
    rewrite normalize_zero by assumption. rewrite Hs, Hc.
    split; [reflexivity |].
    now destruct (tempRealized (replay pre) !! t_ticker t).
  - rewrite applyTrade_sell_closed by (assumption || reflexivity). cbn.
    split; [reflexivity |].
    now destruct (tempRealized (replay pre) !! t_ticker t).
Qed.

(** A second sell after the position was sold out. *)
Lemma sell_on_closed_position_is_noop_witness :
  let pre := [buyAAPL; sellAAPL; sellAllAAPL] in
  position (process (replay pre) sellAgainAAPL) "AAPL" = position (replay pre) "AAPL"
  ∧ realizedAcc (process (replay pre) sellAgainAAPL) "AAPL"
    = realizedAcc (replay pre) "AAPL".
Proof.
  apply (sell_on_closed_position_is_noop [buyAAPL; sellAAPL; sellAllAAPL]
           sellAgainAAPL).
  - reflexivity.
  - vm_compute. reflexivity.
Defined.

(** ** Buys only *)

Lemma sumQ_cons (x : Q) (l : list Q) : sumQ (x :: l) = x + sumQ l.
Proof. reflexivity. Qed.

Lemma sumQ_Permutation (l l' : list Q) : Permutation l l' → sumQ l == sumQ l'.
Proof.
  induction 1 as [| x l l' _ IH | x y l | l l' l'' _ IH1 _ IH2]; cbn.
  - reflexivity.
  - now rewrite IH.
  - ring.
  - now rewrite IH1.
Qed.

Lemma position_empty (k : string) : position emptyTemp k = (0, 0).
Proof. unfold position. cbn. now rewrite lookup_empty. Qed.

Lemma position_process_ne (st : Temp) (t : Transaction) (k : string) :
  t_ticker t ≠ k → position (process st t) k = position st k.
Proof. intros Hne. unfold position. now rewrite process_holding_ne. Qed.

Lemma position_process_buy_open (st : Temp) (t : Transaction) :
  t_type t = buy →
  epsilon < (position st (t_ticker t)).1 + t_shares t →
  position (process st t) (t_ticker t)
  = ((position st (t_ticker t)).1 + t_shares t,
     (position st (t_ticker t)).2 + t_totalAmount t).
Proof.
  intros Hbuy Hopen. unfold position in *. rewrite process_holding.
  unfold applyTrade, currentHolding. rewrite Hbuy. cbn.
  destruct (tempHoldings st !! t_ticker t) as [h |]; cbn in *;
    (rewrite normalize_open; [reflexivity | exact Hopen]).
Qed.

Lemma fold_buys_open (k : string) (l : list Transaction) (st : Temp) :
  (∀ t, t ∈ l → t_ticker t = k → t_type t = buy) →
  (∀ p t rest, l = p ++ t :: rest → t_ticker t = k →
     epsilon < (position (fold_left process p st) k).1 + t_shares t) →
  (position (fold_left process l st) k).1
    == (position st k).1 + sumQ (t_shares <$> tickerTrades k l)
  ∧ (position (fold_left process l st) k).2
    == (position st k).2 + sumQ (t_totalAmount <$> tickerTrades k l).
Proof.
  revert st. induction l as [| t l IH]; intros st Hbuys Hopen.
  - cbn. split; ring.
  - change (fold_left process (t :: l) st) with (fold_left process l (process st t)).
    assert (Hbuys' : ∀ t', t' ∈ l → t_ticker t' = k → t_type t' = buy).
    { intros t' Ht'. apply Hbuys. now right. }
    assert (Hopen' : ∀ p t' rest, l = p ++ t' :: rest → t_ticker t' = k →
              epsilon < (position (fold_left process p (process st t)) k).1
                        + t_shares t').
    { intros p t' rest -> Hk. exact (Hopen (t :: p) t' rest eq_refl Hk). }
    specialize (IH (process st t) Hbuys' Hopen').
    unfold tickerTrades. rewrite filter_cons.
    destruct (decide (t_ticker t = k)) as [Hk | Hne].
    + pose proof (Hbuys t (list_elem_of_here _ _) Hk) as Hbuy.
      pose proof (Hopen [] t l eq_refl Hk) as Ht. cbn in Ht. subst k.
      rewrite position_process_buy_open in IH by assumption. cbn in IH.
      destruct IH as [IH1 IH2].
      fold (tickerTrades (t_ticker t) l) in *.
      rewrite IH1, IH2, !fmap_cons, !sumQ_cons. split; ring.
    + rewrite position_process_ne in IH by exact Hne. exact IH.
Qed.

(** C6 (amended). For every log in which a ticker has only buys and the
    open shares of the ticker exceed [0.000001] after each of them, the
    ticker's cost basis after the replay is the sum of its buy settlement
    amounts and its shares are the sum of its buy share counts. *)
Theorem buys_only_conserve_cost_basis (getTime : string → Z)
    (log : list Transaction) (k : string) :
  (∀ t, t ∈ log → t_ticker t = k → t_type t = buy) →
  buysStayOpen k (sortedTrans getTime log) →
  (position (accumulate getTime log) k).1
    == sumQ (t_shares <$> tickerTrades k log)
  ∧ (position (accumulate getTime log) k).2
    == sumQ (t_totalAmount <$> tickerTrades k log).
Proof.
  intros Hlog Hopen. unfold accumulate, replay.
  pose proof (sortedTrans_Permutation getTime log) as Hperm.
  destruct (fold_buys_open k (sortedTrans getTime log) emptyTemp) as [H1 H2].
  - intros t Ht. apply Hlog. now rewrite <- Hperm.
  - exact Hopen.
  - assert (Hf : Permutation (tickerTrades k (sortedTrans getTime log))
                   (tickerTrades k log)).
    { unfold tickerTrades. now rewrite Hperm. }
    rewrite H1, H2, position_empty.
    rewrite (sumQ_Permutation _ _ (fmap_Permutation t_shares _ _ Hf)).
    rewrite (sumQ_Permutation _ _ (fmap_Permutation t_totalAmount _ _ Hf)).
    split; apply Qplus_0_l.
Qed.

(** Two buys of one ticker, of 1 share and of [0.0000005] shares: the
    second is below the threshold by itself, the position after it is
    not. *)
Lemma buys_only_conserve_cost_basis_witness :
  (position (accumulate dateKey [buyOne; tinyBuy]) "TINY").1
    == sumQ (t_shares <$> tickerTrades "TINY" [buyOne; tinyBuy])
  ∧ (position (accumulate dateKey [buyOne; tinyBuy]) "TINY").2
    == sumQ (t_totalAmount <$> tickerTrades "TINY" [buyOne; tinyBuy]).
Proof.
  apply (buys_only_conserve_cost_basis dateKey [buyOne; tinyBuy] "TINY").
  - intros t Ht _.
    repeat (apply elem_of_cons in Ht; destruct Ht as [-> | Ht]);
      [reflexivity .. | now apply elem_of_nil in Ht].
  - assert (Hs : sortedTrans dateKey [buyOne; tinyBuy] = [buyOne; tinyBuy])
      by (vm_compute; reflexivity).
    rewrite Hs. intros p t rest E _.
    destruct p as [| x1 [| x2 p]]; cbn in E; injection E as; subst.
    + reflexivity.
    + reflexivity.
    + now destruct p.
Defined.

(** C6 as stated fails: a log of one buy of [0.0000005] shares has only
    buys, yet the normalization closes the position; shares and cost basis
    are [0], not the sums over the buys. *)
Lemma tiny_buy_is_not_conserved :
  let log := [tinyBuy] in
  (∀ t, t ∈ log → t_ticker t = "TINY"%string → t_type t = buy ∧ 0 < t_shares t)
  ∧ position (accumulate dateKey log) "TINY" = (0, 0)
  ∧ sumQ (t_shares <$> tickerTrades "TINY" log) == 1 # 2000000
  ∧ ¬ ((position (accumulate dateKey log) "TINY").1
       == sumQ (t_shares <$> tickerTrades "TINY" log))
  ∧ ¬ ((position (accumulate dateKey log) "TINY").2
       == sumQ (t_totalAmount <$> tickerTrades "TINY" log)).
Proof.
  split.
  - intros t Ht _. apply list_elem_of_singleton in Ht as ->. now split.
  - split; [vm_compute; reflexivity |]. split; [reflexivity |].
    split; intros H; vm_compute in H; discriminate H.
Qed.

(** ** The realized accumulator *)

(** C7. The realized accumulator of a ticker is never reset: an
    iteration of the replay either leaves it as it is or adds one
    retirement to it, also when the position was closed before and is
    opened again.  For the log buy 10 at 1,000; sell 10 at 1,200; buy 10 at
    900; sell 10 at 800 (one ticker, one date, in log order) the realized
    profit is 100 over 2 trades and the position is closed with 0 shares
    and no visible holding. *)
Theorem realized_accumulates_across_reopen :
  (∀ (st : Temp) (t : Transaction) (k : string),
     realizedAcc (process st t) k = realizedAcc st k
     ∨ ∃ cost : Q,
         realizedAcc (process st t) k
         = ((realizedAcc st k).1.1.1 + (t_totalAmount t - cost),
            (realizedAcc st k).1.1.2 + cost,
            (realizedAcc st k).1.2 + t_totalAmount t,
            S (realizedAcc st k).2))
  ∧ (∀ (getTime : string → Z) (prices : gmap string Q) (c : AppSettings)
       (d : string),
       let T := λ ty amount,
         mkTransaction "id" d "X" "X" ty TW (amount / 10) 10 false 0 0 amount in
       let log := [T buy 1000; T sell 1200; T buy 900; T sell 800] in
       let out := derive getTime log prices c in
       match realizedGains out !! "X" with
       | Some r => r_realizedPL r == 100 ∧ r_tradeCount r = 2%nat
       | None => False
       end
       ∧ holdings out !! "X" = None
       ∧ position (accumulate getTime log) "X" = (0, 0)).
Proof.
  split.
  - intros st t k. destruct (decide (t_ticker t = k)) as [<- | Hne].
    + unfold realizedAcc. rewrite process_realized.
      unfold currentRealized, applyTrade.
      destruct (t_type t).
      * left. cbn. now destruct (tempRealized st !! t_ticker t).
      * destruct (gtb _ 0).
        -- right. eexists. cbn.
           destruct (tempRealized st !! t_ticker t); cbn; reflexivity.
        -- left. cbn. now destruct (tempRealized st !! t_ticker t).
    + left. unfold realizedAcc. now rewrite process_realized_ne.
  - intros getTime prices c d T log out.
    assert (Hsort : sortedTrans getTime log = log).
    { apply (Array_sort_same_key (λ t, getTime (t_date t)) (getTime d)).
      repeat constructor. }
    unfold out, derive, accumulate. rewrite Hsort.
    split; [| split].
    + vm_compute. split; reflexivity.
    + vm_compute. reflexivity.
    + vm_compute. reflexivity.
Qed.

(** ** Valuation of the visible holdings *)

Lemma applyTrade_ticker (t : Transaction) (h : TempHolding) (r : RealizedItem) :
  th_ticker (normalize (applyTrade t h r).1) = th_ticker h.
Proof.
  unfold applyTrade, normalize.
  destruct (t_type t); [| destruct (gtb (th_shares h) 0)]; cbn;
    match goal with |- context [leb ?a ?b] => destruct (leb a b) end; reflexivity.
Qed.

Lemma replay_keyedByTicker (l : list Transaction) (k : string) (h : TempHolding) :
  tempHoldings (replay l) !! k = Some h → keyedByTicker h k.
Proof.
  revert k h. induction l as [| t l IH] using rev_ind; intros k h Hk.
  - cbn in Hk. now rewrite lookup_empty in Hk.
  - rewrite replay_snoc in Hk. destruct (decide (t_ticker t = k)) as [<- | Hne].
    + rewrite process_holding in Hk. injection Hk as <-.
      unfold keyedByTicker. rewrite applyTrade_ticker. unfold currentHolding.
      destruct (tempHoldings (replay l) !! t_ticker t) eqn:E; cbn.
      * exact (IH _ _ E).
      * reflexivity.
    + rewrite process_holding_ne in Hk by exact Hne. exact (IH _ _ Hk).
Qed.

Lemma estimate_is_sell_calculation (c : AppSettings) (currentPrice : Q)
    (h : TempHolding) :
  let a := calculateTransactionAmount c sell (th_market h) currentPrice
             (th_shares h) (th_isETF h) in
  estSellFee c currentPrice h = fee a ∧ estSellTax c currentPrice h = tax a.
Proof. unfold estSellFee, estSellTax. destruct (th_market h); cbn; now split. Qed.

(** C8. Every visible holding comes from a position with positive
    shares, and the liquidation fee and tax estimated for it are the fee
    and the tax that the calculator returns for a sell in the position's
    market at the current price (0 when the ticker has no manual price) and
    the whole position; its market value is price times shares less that
    fee and that tax, and its unrealized profit is the market value less
    the cost basis. *)
Theorem holding_valuation_uses_calculator (getTime : string → Z)
    (log : list Transaction) (prices : gmap string Q) (c : AppSettings)
    (k : string) (H : Holding) :
  holdings (derive getTime log prices c) !! k = Some H →
  ∃ h : TempHolding,
    tempHoldings (accumulate getTime log) !! k = Some h
    ∧ 0 < th_shares h
    ∧ let currentPrice := orZero (prices !! k) in
      let a := calculateTransactionAmount c sell (th_market h) currentPrice
                 (th_shares h) (th_isETF h) in
      estSellFee c currentPrice h = fee a
      ∧ estSellTax c currentPrice h = tax a
      ∧ h_shares H = th_shares h
      ∧ h_totalCost H = th_totalCost h
      ∧ h_marketValue H = currentPrice * th_shares h - fee a - tax a
      ∧ h_marketValue H = total a
      ∧ h_unrealizedPL H = h_marketValue H - th_totalCost h.
Proof.
  unfold derive. cbn. rewrite lookup_fmap. intros Hk.
  destruct (filter _ _ !! k) as [h |] eqn:Eh; [| discriminate].
  cbn in Hk. injection Hk as <-.
  apply map_lookup_filter_Some in Eh as [Eh Hpos]. cbn in Hpos.
  exists h. split; [exact Eh |]. split; [now apply gtb_true |].
  pose proof (replay_keyedByTicker _ _ _ Eh) as Hkey. unfold keyedByTicker in Hkey.
  unfold valuation. rewrite Hkey. cbn.
  destruct (estimate_is_sell_calculation c (orZero (prices !! k)) h) as [-> ->].
  repeat split.
Qed.

(** The holding of AAPL in the example log, at the manual price 125. *)
Lemma holding_valuation_uses_calculator_witness :
  ∃ h : TempHolding,
    tempHoldings (accumulate dateKey exampleLog) !! "AAPL"%string = Some h
    ∧ 0 < th_shares h
    ∧ let currentPrice := orZero (examplePrices !! "AAPL"%string) in
      let a := calculateTransactionAmount DEFAULT_SETTINGS sell (th_market h)
                 currentPrice (th_shares h) (th_isETF h) in
      estSellFee DEFAULT_SETTINGS currentPrice h = fee a
      ∧ estSellTax DEFAULT_SETTINGS currentPrice h = tax a
      ∧ h_shares visibleAAPL = th_shares h
      ∧ h_totalCost visibleAAPL = th_totalCost h
      ∧ h_marketValue visibleAAPL = currentPrice * th_shares h - fee a - tax a
      ∧ h_marketValue visibleAAPL = total a
      ∧ h_unrealizedPL visibleAAPL = h_marketValue visibleAAPL - th_totalCost h.
Proof.
  apply (holding_valuation_uses_calculator dateKey exampleLog examplePrices
           DEFAULT_SETTINGS "AAPL" visibleAAPL).
  vm_compute. reflexivity.
Defined.

(** ** The sorted copy of the log *)

Section SortedAlready.
Context {A : Type} (key : A → Z).


End SortedAlready.




(** ** The add-transaction form *)

Lemma truthy_true (s : string) : truthy s = true ↔ s ≠ EmptyString.
Proof. destruct s; cbn; split; congruence. Qed.

Lemma truthy_false (s : string) : truthy s = false ↔ s = EmptyString.
Proof. destruct s; cbn; split; congruence. Qed.

Lemma handleAddTransaction_accepts (parseFloat : string → Q) (now : string)
    (st : AppState) :
  formComplete (form st) →
  transactions (handleAddTransaction parseFloat now st)
  = transactions st ++ [
      let f := form st in
      let a := calculateTransactionAmount (settings st) (f_type f) (f_market f)
                 (parseFloat (f_price f)) (parseFloat (f_shares f)) (f_isETF f) in
      {| t_id := now; t_date := f_date f;
         t_ticker := toUpperCase (f_ticker f);
         t_name := if truthy (f_name f) then f_name f
                   else toUpperCase (f_ticker f);
         t_type := f_type f; t_market := f_market f;
         t_price := parseFloat (f_price f);
         t_shares := parseFloat (f_shares f);
         t_isETF := f_isETF f;
         t_fee := fee a; t_tax := tax a; t_totalAmount := total a |} ]
  ∧ manualPrices (handleAddTransaction parseFloat now st)
    = match f_type (form st) with
      | buy => <[toUpperCase (f_ticker (form st)) := parseFloat (f_price (form st))]>
                 (manualPrices st)
      | sell => manualPrices st
      end.
Proof.
  intros (Ht & Hp & Hs). apply truthy_true in Ht, Hp, Hs.
  unfold handleAddTransaction. rewrite Ht, Hp, Hs. cbn. now split.
Qed.

(** C5 (amended). A submission whose ticker, price or shares field is
    empty is rejected before a transaction is built: the state, and with
    it the log, is unchanged.  A submission whose three fields are
    non-empty is accepted whatever numbers the price and the shares parse
    to, zero and negative numbers included: the log grows by one
    transaction carrying those numbers. *)
Theorem submission_rejected_iff_field_empty (parseFloat : string → Q)
    (now : string) (st : AppState) :
  (f_ticker (form st) = EmptyString ∨ f_price (form st) = EmptyString
   ∨ f_shares (form st) = EmptyString →
   handleAddTransaction parseFloat now st = st)
  ∧ (formComplete (form st) →
     ∃ t, transactions (handleAddTransaction parseFloat now st)
          = transactions st ++ [t]
          ∧ t_price t = parseFloat (f_price (form st))
          ∧ t_shares t = parseFloat (f_shares (form st))).
Proof.
  split.
  - intros Hempty. unfold handleAddTransaction.
    destruct Hempty as [H | [H | H]]; apply truthy_false in H; rewrite H; cbn;
      rewrite ?orb_true_r; reflexivity.
  - intros Hc. destruct (handleAddTransaction_accepts parseFloat now st Hc) as [-> _].
    eexists. split; [reflexivity |]. now split.
Qed.

(** An empty price field, and a price field holding [-10]. *)
Lemma empty_field_rejected_negative_accepted_witness :
  handleAddTransaction parseDecimal "1" (stateWith (blankForm "a" EmptyString "10"))
  = stateWith (blankForm "a" EmptyString "10")
  ∧ ∃ t, transactions (handleAddTransaction parseDecimal "1" negativePriceState)
         = transactions negativePriceState ++ [t]
         ∧ t_price t = parseDecimal "-10"
         ∧ t_shares t = parseDecimal "10".
Proof.
  split.
  - apply (proj1 (submission_rejected_iff_field_empty parseDecimal "1"
                    (stateWith (blankForm "a" EmptyString "10")))).
    right. left. reflexivity.
  - apply (proj2 (submission_rejected_iff_field_empty parseDecimal "1"
                    negativePriceState)).
    repeat split; discriminate.
Defined.

(** C5 as stated fails: the price field [-10] parses to a negative number
    and the submission is accepted; the log grows by a transaction of
    price [-10]. *)
Lemma negative_price_is_accepted :
  let st := negativePriceState in
  let st' := handleAddTransaction parseDecimal "1" st in
  parseDecimal (f_price (form st)) == -10
  ∧ ¬ (0 < parseDecimal (f_price (form st)))
  ∧ transactions st' ≠ transactions st
  ∧ match transactions st' with
    | [t] => t_price t == -10 ∧ t_shares t == 10 ∧ t_totalAmount t == -80
    | _ => False
    end.
Proof.
  split; [reflexivity |]. split; [intros H; discriminate H |].
  split; [discriminate |].
  vm_compute. repeat split; reflexivity.
Qed.

(** C10. An accepted buy also sets the manual price of its (upper-cased)
    ticker to the trade price, whatever price was stored for it before;
    an accepted sell leaves the manual prices as they were. *)
Theorem buy_overwrites_manual_price (parseFloat : string → Q) (now : string)
    (st : AppState) :
  formComplete (form st) →
  let st' := handleAddTransaction parseFloat now st in
  let k := toUpperCase (f_ticker (form st)) in
  match f_type (form st) with
  | buy =>
      manualPrices st' = <[k := parseFloat (f_price (form st))]> (manualPrices st)
      ∧ manualPrices st' !! k = Some (parseFloat (f_price (form st)))
      ∧ ∀ k', k' ≠ k → manualPrices st' !! k' = manualPrices st !! k'
  | sell => manualPrices st' = manualPrices st
  end.
Proof.
  intros Hc st' k.
  destruct (handleAddTransaction_accepts parseFloat now st Hc) as [_ Hm].
  fold st' in Hm. destruct (f_type (form st)); [| exact Hm].
  fold k in Hm. rewrite Hm. split; [reflexivity |].
  split; [apply lookup_insert_eq |].
  intros k' Hne. apply lookup_insert_ne. congruence.
Qed.

(** A buy of ticker [a] at 60 over a stored manual price of 55. *)
Lemma buy_overwrites_manual_price_witness :
  let st := stateWith (blankForm "a" "60" "10") in
  let st' := handleAddTransaction parseDecimal "1" st in
  manualPrices st' = <["A"%string := parseDecimal "60"]> (manualPrices st)
  ∧ manualPrices st' !! "A"%string = Some (parseDecimal "60")
  ∧ ∀ k', k' ≠ "A"%string → manualPrices st' !! k' = manualPrices st !! k'.
Proof.
  apply (buy_overwrites_manual_price parseDecimal "1"
           (stateWith (blankForm "a" "60" "10"))).
  repeat split; discriminate.
Defined.

(** * Further properties of the replay *)

(** ** The realized record balances *)

Lemma applyTrade_balanced (t : Transaction) (h : TempHolding) (r : RealizedItem) :
  balanced r → balanced (applyTrade t h r).2.
Proof.
  unfold balanced, applyTrade. intros Hr.
  destruct (t_type t); [exact Hr |].
  destruct (gtb (th_shares h) 0); [| exact Hr]. cbn. rewrite Hr. ring.
Qed.

Lemma applyTrade_realized_ticker (t : Transaction) (h : TempHolding)
    (r : RealizedItem) :
  r_ticker (applyTrade t h r).2 = r_ticker r.
Proof.
  unfold applyTrade. destruct (t_type t); [reflexivity |].
  now destruct (gtb (th_shares h) 0).
Qed.

Lemma process_realizedSatisfy (P : string → RealizedItem → Prop)
    (st : Temp) (t : Transaction) :
  P (t_ticker t) (initRealized t) →
  (∀ h r, P (t_ticker t) r → P (t_ticker t) (applyTrade t h r).2) →
  realizedSatisfy P st → realizedSatisfy P (process st t).
Proof.
  intros Hinit Hstep Hst k r Hk. destruct (decide (t_ticker t = k)) as [<- | Hne].
  - rewrite process_realized in Hk. injection Hk as <-. apply Hstep.
    unfold currentRealized.
    destruct (tempRealized st !! t_ticker t) eqn:E; cbn; [eapply Hst, E | exact Hinit].
  - rewrite process_realized_ne in Hk by exact Hne. eapply Hst, Hk.
Qed.

Lemma replay_balanced (l : list Transaction) :
  realizedSatisfy (λ k r, balanced r ∧ r_ticker r = k) (replay l).
Proof.
  induction l as [| t l IH] using rev_ind.
  - intros k r Hk. cbn in Hk. now rewrite lookup_empty in Hk.
  - rewrite replay_snoc. apply process_realizedSatisfy; [| | exact IH].
    + split; [| reflexivity]. unfold balanced. cbn. ring.
    + intros h r [Hb Hk]. split; [now apply applyTrade_balanced |].
      now rewrite applyTrade_realized_ticker.
Qed.

(** X1. Every realized item on display has at least one trade, carries
    the ticker it is listed under, and its realized profit is its revenue
    less the cost it retired. *)
Theorem realized_item_balances (getTime : string → Z) (log : list Transaction)
    (prices : gmap string Q) (c : AppSettings) (k : string) (r : RealizedItem) :
  realizedGains (derive getTime log prices c) !! k = Some r →
  (0 < r_tradeCount r)%nat
  ∧ r_ticker r = k
  ∧ r_realizedPL r == r_totalRevenue r - r_totalCost r.
Proof.
  unfold derive. cbn. rewrite lookup_fmap. intros Hk.
  destruct (filter _ _ !! k) as [r0 |] eqn:E; [| discriminate].
  cbn in Hk. injection Hk as <-.
  apply map_lookup_filter_Some in E as [E Hcount]. cbn in Hcount.
  destruct (replay_balanced _ _ _ E) as [Hb Ht].
  split; [exact Hcount |]. split; [exact Ht | exact Hb].
Qed.

(** The realized item of AAPL in the example log. *)
Lemma realized_item_balances_witness :
  (0 < r_tradeCount soldAAPL)%nat
  ∧ r_ticker soldAAPL = "AAPL"%string
  ∧ r_realizedPL soldAAPL == r_totalRevenue soldAAPL - r_totalCost soldAAPL.
Proof.
  apply (realized_item_balances dateKey exampleLog examplePrices
           DEFAULT_SETTINGS "AAPL" soldAAPL).
  vm_compute. reflexivity.
Defined.

(** ** Partial, full and oversized sells *)

Lemma process_holding_Some (st : Temp) (t : Transaction) (h : TempHolding) :
  tempHoldings st !! t_ticker t = Some h →
  tempHoldings (process st t) !! t_ticker t
  = Some (normalize (applyTrade t h (currentRealized st t)).1).
Proof.
  intros Hh. rewrite process_holding. unfold currentHolding. now rewrite Hh.
Qed.

Lemma applyTrade_sell_open (t : Transaction) (h : TempHolding) (r : RealizedItem) :
  t_type t = sell → 0 < th_shares h →
  applyTrade t h r
  = (setPosition h (th_shares h - t_shares t)
       (th_totalCost h - costRetired h (t_shares t)),
     retire r (t_totalAmount t) (costRetired h (t_shares t))).
Proof.
  intros Hsell Hpos. unfold applyTrade. rewrite Hsell.
  apply gtb_true in Hpos. rewrite Hpos. unfold retire, costRetired.
  now rewrite Nat.add_1_r.
Qed.

(** X2. A sell that leaves more than [0.000001] shares open does not
    change the average cost of the position: the cost basis left, divided
    by the shares left, is the cost basis divided by the shares before. *)
Theorem partial_sell_keeps_average_cost (st : Temp) (t : Transaction)
    (h : TempHolding) :
  t_type t = sell →
  tempHoldings st !! t_ticker t = Some h →
  0 < th_shares h →
  epsilon < th_shares h - t_shares t →
  let remaining := th_totalCost h - costRetired h (t_shares t) in
  tempHoldings (process st t) !! t_ticker t
    = Some (setPosition h (th_shares h - t_shares t) remaining)
  ∧ remaining / (th_shares h - t_shares t) == th_totalCost h / th_shares h.
Proof.
  intros Hsell Hh Hpos Hopen remaining.
  rewrite (process_holding_Some _ _ _ Hh), applyTrade_sell_open by assumption.
  cbn. rewrite normalize_open by exact Hopen. split; [reflexivity |].
  unfold remaining, costRetired. pose proof epsilon_pos. field. split; lra.
Qed.

(** The sell of 4 of the 10 shares of AAPL. *)
Lemma partial_sell_keeps_average_cost_witness :
  let remaining := th_totalCost openAAPL - costRetired openAAPL (t_shares sellAAPL) in
  tempHoldings (process (replay [buyAAPL; buyTSMC]) sellAAPL) !! "AAPL"%string
    = Some (setPosition openAAPL (th_shares openAAPL - t_shares sellAAPL) remaining)
  ∧ remaining / (th_shares openAAPL - t_shares sellAAPL)
    == th_totalCost openAAPL / th_shares openAAPL.
Proof.
  apply (partial_sell_keeps_average_cost (replay [buyAAPL; buyTSMC]) sellAAPL
           openAAPL).
  - reflexivity.
  - vm_compute. reflexivity.
  - reflexivity.
  - reflexivity.
Defined.

(** X3. A sell of exactly the shares held closes the position to 0
    shares and 0 cost basis, retires the whole cost basis, and realizes the
    settlement amount less that cost basis. *)
Theorem full_sell_retires_whole_cost_basis (st : Temp) (t : Transaction)
    (h : TempHolding) :
  t_type t = sell →
  tempHoldings st !! t_ticker t = Some h →
  0 < th_shares h →
  t_shares t == th_shares h →
  position (process st t) (t_ticker t) = (0, 0)
  ∧ costRetired h (t_shares t) == th_totalCost h
  ∧ (realizedAcc (process st t) (t_ticker t)).1.1.1
    == (realizedAcc st (t_ticker t)).1.1.1 + (t_totalAmount t - th_totalCost h)
  ∧ (realizedAcc (process st t) (t_ticker t)).2
    = S (realizedAcc st (t_ticker t)).2.
Proof.
  intros Hsell Hh Hpos Hall.
  assert (Hcost : costRetired h (t_shares t) == th_totalCost h).
  { unfold costRetired. rewrite Hall. field. lra. }
  unfold position, realizedAcc.
  rewrite (process_holding_Some _ _ _ Hh), process_realized.
  unfold currentHolding. rewrite Hh. cbn.
  rewrite applyTrade_sell_open by assumption. cbn.
  rewrite normalize_closed by (cbn; pose proof epsilon_pos; lra). cbn.
  split; [reflexivity |]. split; [exact Hcost |].
  unfold currentRealized.
  destruct (tempRealized st !! t_ticker t); cbn; rewrite Hcost;
    (split; [ring | lia]).
Qed.

(** The sell of the 6 shares left after the sell of 4. *)
Lemma full_sell_retires_whole_cost_basis_witness :
  let st := replay [buyAAPL; sellAAPL] in
  position (process st sellAllAAPL) "AAPL" = (0, 0)
  ∧ costRetired partAAPL (t_shares sellAllAAPL) == th_totalCost partAAPL
  ∧ (realizedAcc (process st sellAllAAPL) "AAPL").1.1.1
    == (realizedAcc st "AAPL").1.1.1
       + (t_totalAmount sellAllAAPL - th_totalCost partAAPL)
  ∧ (realizedAcc (process st sellAllAAPL) "AAPL").2
    = S (realizedAcc st "AAPL").2.
Proof.
  apply (full_sell_retires_whole_cost_basis (replay [buyAAPL; sellAAPL])
           sellAllAAPL partAAPL).
  - reflexivity.
  - vm_compute. reflexivity.
  - reflexivity.
  - reflexivity.
Defined.

(** X4. A sell of more shares than are held is applied in full: the
    position closes to 0 shares and 0 cost basis, and the cost it retires,
    added to the realized cost, is larger than the cost basis that was
    held (when that was positive). *)
Theorem oversized_sell_retires_more_than_held (st : Temp) (t : Transaction)
    (h : TempHolding) :
  t_type t = sell →
  tempHoldings st !! t_ticker t = Some h →
  0 < th_shares h →
  th_shares h < t_shares t →
  0 < th_totalCost h →
  position (process st t) (t_ticker t) = (0, 0)
  ∧ th_totalCost h < costRetired h (t_shares t)
  ∧ (realizedAcc (process st t) (t_ticker t)).1.1.2
    == (realizedAcc st (t_ticker t)).1.1.2 + costRetired h (t_shares t).
Proof.
  intros Hsell Hh Hpos Hover Hcost.
  unfold position, realizedAcc.
  rewrite (process_holding_Some _ _ _ Hh), process_realized.
  unfold currentHolding. rewrite Hh. cbn.
  rewrite applyTrade_sell_open by assumption. cbn.
  rewrite normalize_closed by (cbn; pose proof epsilon_pos; lra). cbn.
  split; [reflexivity |]. split.
  - unfold costRetired.
    assert (Ha : 0 < th_totalCost h / th_shares h).
    { apply Qlt_shift_div_l; [exact Hpos | lra]. }
    assert (E : th_totalCost h == th_totalCost h / th_shares h * th_shares h).
    { field. lra. }
    rewrite E at 1. apply Qmult_lt_l; assumption.
  - unfold currentRealized. destruct (tempRealized st !! t_ticker t); cbn; ring.
Qed.

(** A sell of 8 shares against the 6 shares left. *)
Lemma oversized_sell_retires_more_than_held_witness :
  let st := replay [buyAAPL; sellAAPL] in
  position (process st oversellAAPL) "AAPL" = (0, 0)
  ∧ th_totalCost partAAPL < costRetired partAAPL (t_shares oversellAAPL)
  ∧ (realizedAcc (process st oversellAAPL) "AAPL").1.1.2
    == (realizedAcc st "AAPL").1.1.2
       + costRetired partAAPL (t_shares oversellAAPL).
Proof.
  apply (oversized_sell_retires_more_than_held (replay [buyAAPL; sellAAPL])
           oversellAAPL partAAPL).
  - reflexivity.
  - vm_compute. reflexivity.
  - reflexivity.
  - reflexivity.
  - reflexivity.
Defined.

(** ** The sort commutes with a filter *)

Section SortFilter.
Context {A : Type} (key : A → Z) (P : A → Prop) `{!∀ a, Decision (P a)}.

Local Abbreviation byKey := (byKey key).
Local Abbreviation keyLe := (keyLe key).

Lemma sortInsert_least (x : A) (l : list A) :
  Forall (keyLe x) l → sortInsert byKey x l = x :: l.
Proof.
  destruct 1 as [| y l Hy _]; [reflexivity |]. cbn.
  unfold byKey, keyLe in *.
  destruct (Z.leb_spec (key x - key y) 0); [reflexivity | lia].
Qed.

Lemma sortInsert_filter_comm (x : A) (l : list A) :
  StronglySorted keyLe l →
  filter P (sortInsert byKey x l)
  = if decide (P x) then sortInsert byKey x (filter P l) else filter P l.
Proof.
  induction 1 as [| y l Hl IH Hy].
  - change (sortInsert byKey x []) with [x].
    rewrite filter_cons, !filter_nil. now destruct (decide (P x)).
  - change (sortInsert byKey x (y :: l))
      with (if (byKey x y <=? 0)%Z then x :: y :: l
            else y :: sortInsert byKey x l).
    destruct (Z.leb_spec (byKey x y) 0) as [Hle | Hgt].
    + rewrite (filter_cons _ x). destruct (decide (P x)); [| reflexivity].
      symmetry. apply sortInsert_least.
      apply Forall_forall. intros z Hz. apply list_elem_of_filter in Hz as [_ Hz].
      apply elem_of_cons in Hz as [-> | Hz].
      * unfold keyLe, byKey in *. lia.
      * rewrite Forall_forall in Hy. specialize (Hy z Hz).
        unfold keyLe, byKey in *. lia.
    + rewrite (filter_cons _ y), IH, (filter_cons _ y).
      destruct (decide (P x)), (decide (P y)); try reflexivity.
      cbn. destruct (Z.leb_spec (byKey x y) 0); [lia | reflexivity].
Qed.

Lemma Array_sort_filter (l : list A) :
  filter P (Array_sort byKey l) = Array_sort byKey (filter P l).
Proof.
  induction l as [| x l IH]; [reflexivity |].
  change (Array_sort byKey (x :: l)) with (sortInsert byKey x (Array_sort byKey l)).
  rewrite sortInsert_filter_comm by apply Array_sort_sorted.
  rewrite filter_cons, IH. now destruct (decide (P x)).
Qed.
End SortFilter.

Lemma sortedTrans_tickerTrades (getTime : string → Z) (k : string)
    (log : list Transaction) :
  tickerTrades k (sortedTrans getTime log)
  = sortedTrans getTime (tickerTrades k log).
Proof. apply (Array_sort_filter (λ t, getTime (t_date t))). Qed.

(** ** The accumulators of a ticker depend on its own transactions only *)

Lemma process_local (st1 st2 : Temp) (t : Transaction) :
  tempHoldings st1 !! t_ticker t = tempHoldings st2 !! t_ticker t →
  tempRealized st1 !! t_ticker t = tempRealized st2 !! t_ticker t →
  tempHoldings (process st1 t) !! t_ticker t
    = tempHoldings (process st2 t) !! t_ticker t
  ∧ tempRealized (process st1 t) !! t_ticker t
    = tempRealized (process st2 t) !! t_ticker t.
Proof.
  intros Hh Hr. rewrite !process_holding, !process_realized.
  unfold currentHolding, currentRealized. now rewrite Hh, Hr.
Qed.

Lemma replay_restrict (k : string) (l : list Transaction) :
  tempHoldings (replay l) !! k = tempHoldings (replay (tickerTrades k l)) !! k
  ∧ tempRealized (replay l) !! k = tempRealized (replay (tickerTrades k l)) !! k.
Proof.
  induction l as [| t l [IHh IHr]] using rev_ind; [now split |].
  unfold tickerTrades in *. rewrite filter_app, replay_snoc.
  rewrite filter_cons, filter_nil.
  destruct (decide (t_ticker t = k)) as [<- | Hne].
  - rewrite replay_snoc. now apply process_local.
  - rewrite app_nil_r, process_holding_ne, process_realized_ne by exact Hne.
    now split.
Qed.

Lemma accumulate_restrict (getTime : string → Z) (k : string)
    (log : list Transaction) :
  tempHoldings (accumulate getTime log) !! k
    = tempHoldings (accumulate getTime (tickerTrades k log)) !! k
  ∧ tempRealized (accumulate getTime log) !! k
    = tempRealized (accumulate getTime (tickerTrades k log)) !! k.
Proof.
  unfold accumulate.
  destruct (replay_restrict k (sortedTrans getTime log)) as [-> ->].
  rewrite sortedTrans_tickerTrades.
  destruct (replay_restrict k (sortedTrans getTime (tickerTrades k log)))
    as [Hh Hr].
  rewrite sortedTrans_tickerTrades in Hh, Hr.
  unfold tickerTrades in Hh, Hr.
  rewrite list_filter_filter_l in Hh, Hr by tauto.
  now split.
Qed.

Lemma derive_holdings_lookup (getTime : string → Z) (log : list Transaction)
    (prices : gmap string Q) (c : AppSettings) (k : string) :
  holdings (derive getTime log prices c) !! k
  = match tempHoldings (accumulate getTime log) !! k with
    | Some h => if gtb (th_shares h) 0 then Some (valuation c prices h) else None
    | None => None
    end.
Proof.
  unfold derive. cbn. rewrite lookup_fmap, map_lookup_filter.
  destruct (tempHoldings (accumulate getTime log) !! k) as [h |]; [| reflexivity].
  cbn. destruct (gtb (th_shares h) 0) eqn:E.
  - now rewrite option_guard_True.
  - rewrite option_guard_False; [reflexivity | congruence].
Qed.

Lemma derive_realized_lookup (getTime : string → Z) (log : list Transaction)
    (prices : gmap string Q) (c : AppSettings) (k : string) :
  realizedGains (derive getTime log prices c) !! k
  = match tempRealized (accumulate getTime log) !! k with
    | Some r => if decide (0 < r_tradeCount r)%nat then Some (withRoi r) else None
    | None => None
    end.
Proof.
  unfold derive. cbn. rewrite lookup_fmap, map_lookup_filter.
  destruct (tempRealized (accumulate getTime log) !! k) as [r |]; [| reflexivity].
  cbn. destruct (decide (0 < r_tradeCount r)%nat).
  - now rewrite option_guard_True.
  - now rewrite option_guard_False.
Qed.

Lemma valuation_price_local (c : AppSettings) (prices1 prices2 : gmap string Q)
    (h : TempHolding) :
  prices1 !! th_ticker h = prices2 !! th_ticker h →
  valuation c prices1 h = valuation c prices2 h.
Proof. intros H. unfold valuation. now rewrite H. Qed.

Lemma derive_local (getTime : string → Z)
    (log1 log2 : list Transaction) (prices1 prices2 : gmap string Q)
    (c : AppSettings) (k : string) :
  tickerTrades k log1 = tickerTrades k log2 →
  prices1 !! k = prices2 !! k →
  holdings (derive getTime log1 prices1 c) !! k
    = holdings (derive getTime log2 prices2 c) !! k
  ∧ realizedGains (derive getTime log1 prices1 c) !! k
    = realizedGains (derive getTime log2 prices2 c) !! k.
Proof.
  intros Hlog Hprice.
  rewrite !derive_holdings_lookup, !derive_realized_lookup.
  destruct (accumulate_restrict getTime k log1) as [Hh1 Hr1].
  destruct (accumulate_restrict getTime k log2) as [Hh2 Hr2].
  rewrite Hlog in Hh1, Hr1. rewrite <- Hh2 in Hh1. rewrite <- Hr2 in Hr1.
  rewrite Hr1. split; [| reflexivity].
  rewrite Hh1.
  destruct (tempHoldings (accumulate getTime log2) !! k) as [h |] eqn:E;
    [| reflexivity].
  destruct (gtb (th_shares h) 0); [| reflexivity].
  f_equal. apply valuation_price_local.
  pose proof (replay_keyedByTicker _ _ _ E) as Hk. unfold keyedByTicker in Hk.
  now rewrite Hk.
Qed.

Lemma derive_nothing_without_trades (getTime : string → Z)
    (log : list Transaction) (prices : gmap string Q) (c : AppSettings)
    (k : string) :
  tickerTrades k log = [] →
  holdings (derive getTime log prices c) !! k = None
  ∧ realizedGains (derive getTime log prices c) !! k = None.
Proof.
  intros Hk.
  destruct (derive_local getTime log [] prices prices c k)
    as [-> ->]; [exact Hk | reflexivity |].
  rewrite derive_holdings_lookup, derive_realized_lookup. cbn.
  now rewrite !lookup_empty.
Qed.


(** X6. A ticker has no transaction in the log: nothing is derived for it,
    neither a holding nor a realized item. *)
Theorem no_trades_nothing_derived (getTime : string → Z) (log : list Transaction)
    (prices : gmap string Q) (c : AppSettings) (k : string) :
  tickerTrades k log = [] →
  holdings (derive getTime log prices c) !! k = None
  ∧ realizedGains (derive getTime log prices c) !! k = None.
Proof. apply derive_nothing_without_trades. Qed.

(** X7. Every ticker is either closed or visibly open.  Closed: no
    holding is shown and its position is 0 shares at 0 cost basis.  Open:
    the holding shown carries the ticker, the shares and the cost basis of
    the position, more than [0.000001] shares, the currency of its market,
    and an average cost that times the shares gives the cost basis. *)
Theorem ticker_is_closed_or_visible (getTime : string → Z)
    (log : list Transaction) (prices : gmap string Q) (c : AppSettings)
    (k : string) :
  (holdings (derive getTime log prices c) !! k = None
   ∧ position (accumulate getTime log) k = (0, 0))
  ∨ ∃ H : Holding,
      holdings (derive getTime log prices c) !! k = Some H
      ∧ position (accumulate getTime log) k = (h_shares H, h_totalCost H)
      ∧ h_ticker H = k
      ∧ epsilon < h_shares H
      ∧ h_currency H = currencyOf (h_market H)
      ∧ h_avgCost H * h_shares H == h_totalCost H.
Proof.
  rewrite derive_holdings_lookup. unfold position.
  destruct (tempHoldings (accumulate getTime log) !! k) as [h |] eqn:E;
    [| now left].
  pose proof (replay_closedExact _ _ _ E) as Hclosed.
  pose proof (replay_keyedByTicker _ _ _ E) as Hkey.
  destruct (gtb (th_shares h) 0) eqn:Epos.
  - right. apply gtb_true in Epos. eexists. split; [reflexivity |]. cbn.
    split; [reflexivity |]. split; [exact Hkey |].
    assert (Hopen : epsilon < th_shares h).
    { apply Qnot_le_lt. intros Hle. destruct (Hclosed Hle) as [H0 _].
      rewrite H0 in Epos. now apply Qlt_irrefl in Epos. }
    split; [exact Hopen |]. split; [reflexivity |].
    apply gtb_true in Epos. rewrite Epos. field. apply gtb_true in Epos. lra.
  - left. split; [reflexivity |]. apply gtb_false in Epos.
    destruct Hclosed as [-> ->]; [| reflexivity].
    pose proof epsilon_pos. lra.
Qed.

(** A ticker that the example log does not mention. *)
Lemma no_trades_nothing_derived_witness :
  holdings (derive dateKey exampleLog examplePrices DEFAULT_SETTINGS) !! "MSFT"%string
    = None
  ∧ realizedGains (derive dateKey exampleLog examplePrices DEFAULT_SETTINGS)
      !! "MSFT"%string = None.
Proof.
  apply (no_trades_nothing_derived dateKey exampleLog examplePrices
           DEFAULT_SETTINGS "MSFT").
  reflexivity.
Defined.


(** ** The trade count *)

Lemma realized_count_step (st : Temp) (t : Transaction) (k : string) :
  ((realizedAcc (process st t) k).2
   ≤ (realizedAcc st k).2
     + length (filter (λ t, isSell t = true) (tickerTrades k [t])))%nat.
Proof.
  unfold tickerTrades. rewrite filter_cons, filter_nil.
  destruct (decide (t_ticker t = k)) as [<- | Hne].
  - unfold realizedAcc. rewrite process_realized.
    rewrite filter_cons, filter_nil.
    destruct (decide (isSell t = true)) as [Hs | Hs];
      unfold isSell in Hs; unfold currentRealized, applyTrade;
      destruct (t_type t); try congruence.
    + destruct (gtb _ 0); destruct (tempRealized st !! t_ticker t); cbn; lia.
    + destruct (tempRealized st !! t_ticker t); cbn; lia.
  - unfold realizedAcc. rewrite process_realized_ne by exact Hne. cbn. lia.
Qed.

Lemma realized_count_replay (l : list Transaction) (k : string) :
  ((realizedAcc (replay l) k).2
   ≤ length (filter (λ t, isSell t = true) (tickerTrades k l)))%nat.
Proof.
  induction l as [| t l IH] using rev_ind.
  - unfold realizedAcc. cbn. rewrite lookup_empty. cbn. lia.
  - rewrite replay_snoc. pose proof (realized_count_step (replay l) t k) as Hstep.
    unfold tickerTrades in *. rewrite !filter_app, length_app. lia.
Qed.

(** X8. The trade count of a realized item is at least 1 and at most
    the number of sell transactions of its ticker in the log. *)
Theorem trade_count_bounded_by_sells (getTime : string → Z)
    (log : list Transaction) (prices : gmap string Q) (c : AppSettings)
    (k : string) (r : RealizedItem) :
  realizedGains (derive getTime log prices c) !! k = Some r →
  (1 ≤ r_tradeCount r
   ≤ length (filter (λ t, isSell t = true) (tickerTrades k log)))%nat.
Proof.
  rewrite derive_realized_lookup. intros Hk.
  pose proof (realized_count_replay (sortedTrans getTime log) k) as Hle.
  unfold realizedAcc in Hle. fold (accumulate getTime log) in Hle.
  destruct (tempRealized (accumulate getTime log) !! k) as [r0 |]; [| discriminate].
  destruct (decide (0 < r_tradeCount r0)%nat); [| discriminate].
  injection Hk as <-. cbn in *. split; [lia |].
  assert (Hperm : Permutation
            (filter (λ t, isSell t = true) (tickerTrades k (sortedTrans getTime log)))
            (filter (λ t, isSell t = true) (tickerTrades k log))).
  { unfold tickerTrades. now rewrite (sortedTrans_Permutation getTime log). }
  rewrite <- (Permutation_length Hperm). exact Hle.
Qed.

(** The one sell of AAPL in the example log. *)
Lemma trade_count_bounded_by_sells_witness :
  (1 ≤ r_tradeCount soldAAPL
   ≤ length (filter (λ t, isSell t = true) (tickerTrades "AAPL" exampleLog)))%nat.
Proof.
  apply (trade_count_bounded_by_sells dateKey exampleLog examplePrices
           DEFAULT_SETTINGS "AAPL" soldAAPL).
  vm_compute. reflexivity.
Defined.

(** * The handlers *)

Ltac simpl_state :=
  unfold deriveState;
  cbn [fst snd transactions manualPrices settings form showAddModal
       withManualPrices withTransactions].









(** X11. Adding a transaction and then deleting the id it was given
    restores the log, provided no earlier transaction carries that id; the
    manual prices stay as the submission left them, so the price that a
    buy overwrote is not restored. *)
Theorem add_then_delete_restores_log (parseFloat : string → Q) (now : string)
    (st : AppState) :
  now ≠ EmptyString →
  (∀ t, t ∈ transactions st → t_id t ≠ now) →
  let st1 := handleAddTransaction parseFloat now st in
  let st2 := (confirmDelete (Some now) st1).1 in
  transactions st2 = transactions st ∧ manualPrices st2 = manualPrices st1.
Proof.
  intros Hne Hfresh. apply truthy_true in Hne.
  assert (Hkeep : filter (λ t, t_id t ≠ now) (transactions st) = transactions st).
  { apply filter_all, Forall_forall. exact Hfresh. }
  unfold confirmDelete. rewrite Hne. cbv zeta. simpl_state.
  split; [| reflexivity].
  unfold handleAddTransaction.
  destruct (negb _ || negb _ || negb _); simpl_state; [exact Hkeep |].
  rewrite filter_app, Hkeep, filter_cons_False, filter_nil by (cbn; tauto).
  apply app_nil_r.
Qed.

(** A buy of MSFT added to the example state and deleted again. *)
Lemma add_then_delete_restores_log_witness :
  let st1 := handleAddTransaction parseDecimal "1700000000000" exampleState in
  let st2 := (confirmDelete (Some "1700000000000"%string) st1).1 in
  transactions st2 = transactions exampleState
  ∧ manualPrices st2 = manualPrices st1.
Proof.
  apply (add_then_delete_restores_log parseDecimal "1700000000000" exampleState).
  - discriminate.
  - intros t Ht.
    repeat (apply elem_of_cons in Ht; destruct Ht as [-> | Ht]);
      [discriminate .. | now apply elem_of_nil in Ht].
Defined.

(** X12. An accepted submission appends one transaction, closes the
    dialog and clears the price and the shares of the form, the ticker and
    the date staying; submitting again at once is then rejected, so that
    the log has grown by one transaction only.  For every state, two
    submissions in a row give the state of one. *)
Theorem submitting_twice_adds_once (parseFloat : string → Q)
    (now now' : string) (st : AppState) :
  handleAddTransaction parseFloat now' (handleAddTransaction parseFloat now st)
  = handleAddTransaction parseFloat now st
  ∧ (formComplete (form st) →
     let st1 := handleAddTransaction parseFloat now st in
     let st2 := handleAddTransaction parseFloat now' st1 in
     f_price (form st1) = EmptyString
     ∧ f_shares (form st1) = EmptyString
     ∧ f_ticker (form st1) = f_ticker (form st)
     ∧ f_date (form st1) = f_date (form st)
     ∧ showAddModal st1 = false
     ∧ length (transactions st1) = S (length (transactions st))
     ∧ length (transactions st2) = S (length (transactions st))).
Proof.
  assert (Htwice : handleAddTransaction parseFloat now'
                     (handleAddTransaction parseFloat now st)
                   = handleAddTransaction parseFloat now st).
  { unfold handleAddTransaction at 2 3.
    destruct (negb (truthy (f_ticker (form st)))
              || negb (truthy (f_price (form st)))
              || negb (truthy (f_shares (form st)))) eqn:E.
    - unfold handleAddTransaction. now rewrite E.
    - unfold handleAddTransaction. cbn. now rewrite orb_true_r. }
  split; [exact Htwice |].
  intros (Ht & Hp & Hs). cbv zeta. rewrite Htwice.
  apply truthy_true in Ht, Hp, Hs.
  unfold handleAddTransaction. rewrite Ht, Hp, Hs.
  cbn [negb orb form transactions showAddModal f_price f_shares f_ticker f_date].
  rewrite length_app. cbn [length].
  repeat split; lia.
Qed.

(** The buy of MSFT submitted twice from the example state. *)
Lemma submitting_twice_adds_once_witness :
  let st1 := handleAddTransaction parseDecimal "1700000000000" exampleState in
  let st2 := handleAddTransaction parseDecimal "1700000000001" st1 in
  f_price (form st1) = EmptyString
  ∧ f_shares (form st1) = EmptyString
  ∧ f_ticker (form st1) = f_ticker (form exampleState)
  ∧ f_date (form st1) = f_date (form exampleState)
  ∧ showAddModal st1 = false
  ∧ length (transactions st1) = S (length (transactions exampleState))
  ∧ length (transactions st2) = S (length (transactions exampleState)).
Proof.
  apply (proj2 (submitting_twice_adds_once parseDecimal "1700000000000"
                  "1700000000001" exampleState)).
  repeat split; discriminate.
Defined.

(** X13. A submission changes what is derived for the submitted ticker
    only: every other ticker keeps its holding and its realized item. *)
Theorem submission_spares_other_tickers (parseFloat : string → Q)
    (getTime : string → Z) (now : string) (st : AppState) (k : string) :
  k ≠ toUpperCase (f_ticker (form st)) →
  let st' := handleAddTransaction parseFloat now st in
  holdings (deriveState getTime st') !! k = holdings (deriveState getTime st) !! k
  ∧ realizedGains (deriveState getTime st') !! k
    = realizedGains (deriveState getTime st) !! k.
Proof.
  intros Hk. cbv zeta. unfold handleAddTransaction.
  destruct (negb _ || negb _ || negb _); [now split |].
  simpl_state. apply derive_local.
  - unfold tickerTrades. rewrite filter_app, filter_cons_False, filter_nil
      by (cbn; congruence).
    apply app_nil_r.
  - destruct (f_type (form st)); [| reflexivity].
    apply lookup_insert_ne. cbn [t_ticker]. congruence.
Qed.

(** A buy of MSFT leaves AAPL as it was. *)
Lemma submission_spares_other_tickers_witness :
  let st' := handleAddTransaction parseDecimal "1700000000000" exampleState in
  holdings (deriveState dateKey st') !! "AAPL"%string
    = holdings (deriveState dateKey exampleState) !! "AAPL"%string
  ∧ realizedGains (deriveState dateKey st') !! "AAPL"%string
    = realizedGains (deriveState dateKey exampleState) !! "AAPL"%string.
Proof.
  apply (submission_spares_other_tickers parseDecimal dateKey "1700000000000"
           exampleState "AAPL").
  discriminate.
Defined.

Lemma buy_total_nonneg (c : AppSettings) (market : MarketType)
    (price shares : Q) (isETF : bool) :
  settingsNonNegative c → 0 <= price → 0 <= shares →
  0 <= total (calculateTransactionAmount c buy market price shares isETF).
Proof.
  intros (_ & _ & _ & _ & Htw & _ & Hus & _) Hp Hs.
  assert (Hraw : 0 <= price * shares) by now apply Qmult_le_0_compat.
  destruct market; cbn.
  - pose proof (Math_max_upper (twMinFee c)
      (Math_floor (price * shares * twFeeRate c * twDiscount c))) as (H & _ & _).
    lra.
  - pose proof (Math_max_upper (usMinFee c) (price * shares * usFeeRate c))
      as (H & _ & _).
    lra.
Qed.

(** X14. Under settings without negative fees or rates, a submission
    whose price and shares parse to non-negative numbers keeps the log free
    of buys with a negative settlement amount, and the replay of the new log
    then has no position with a negative cost basis. *)
Theorem nonnegative_submission_keeps_cost_basis_nonnegative
    (parseFloat : string → Q) (getTime : string → Z) (now : string)
    (st : AppState) :
  settingsNonNegative (settings st) →
  0 <= parseFloat (f_price (form st)) →
  0 <= parseFloat (f_shares (form st)) →
  buysNonNegative (transactions st) →
  let log := transactions (handleAddTransaction parseFloat now st) in
  buysNonNegative log
  ∧ ∀ k h, tempHoldings (accumulate getTime log) !! k = Some h →
           0 <= th_shares h ∧ 0 <= th_totalCost h.
Proof.
  intros Hc Hp Hs Hlog log.
  assert (Hlog' : buysNonNegative log).
  { unfold log, handleAddTransaction.
    destruct (negb _ || negb _ || negb _); simpl_state; [exact Hlog |].
    intros t Ht Hbuy. apply elem_of_app in Ht as [Ht | Ht]; [now apply Hlog |].
    apply list_elem_of_singleton in Ht as ->.
    cbn [t_type t_totalAmount] in *. rewrite Hbuy.
    apply buy_total_nonneg; assumption. }
  split; [exact Hlog' |].
  intros k h Hk. eapply (replay_nonNegative (sortedTrans getTime log)); [| exact Hk].
  intros t Ht. apply Hlog'. now rewrite <- (sortedTrans_Permutation getTime log).
Qed.

(** The buy of 10 MSFT at 60 on top of the example log. *)
Lemma nonnegative_submission_keeps_cost_basis_nonnegative_witness :
  let log := transactions
               (handleAddTransaction parseDecimal "1700000000000" exampleState) in
  buysNonNegative log
  ∧ ∀ k h, tempHoldings (accumulate dateKey log) !! k = Some h →
           0 <= th_shares h ∧ 0 <= th_totalCost h.
Proof.
  apply (nonnegative_submission_keeps_cost_basis_nonnegative parseDecimal dateKey
           "1700000000000" exampleState).
  - repeat split; discriminate.
  - discriminate.
  - discriminate.
  - intros t Ht _.
    repeat (apply elem_of_cons in Ht; destruct Ht as [-> | Ht]);
      [discriminate .. | now apply elem_of_nil in Ht].
Defined.

(** X15. A text that is not a number leaves the state as it is.  A
    number becomes the manual price of the ticker: the log, the realized
    items and the holdings of the other tickers do not change, and the
    holding of the ticker is valued as a sell of the whole position at that
    price. *)
Theorem update_price_revalues_one_ticker (parseNumber : string → option Q)
    (getTime : string → Z) (ticker newPrice : string) (st : AppState) :
  let st' := updatePrice parseNumber ticker newPrice st in
  match parseNumber newPrice with
  | None => st' = st
  | Some price =>
      manualPrices st' !! ticker = Some price
      ∧ transactions st' = transactions st
      ∧ realizedGains (deriveState getTime st')
        = realizedGains (deriveState getTime st)
      ∧ (∀ k, k ≠ ticker →
           holdings (deriveState getTime st') !! k
           = holdings (deriveState getTime st) !! k)
      ∧ (∀ H, holdings (deriveState getTime st') !! ticker = Some H →
           h_marketValue H
           = total (calculateTransactionAmount (settings st) sell (h_market H)
                      (orZero (Some price)) (h_shares H) (h_isETF H)))
  end.
Proof.
  cbv zeta. unfold updatePrice.
  destruct (parseNumber newPrice) as [price |]; [| reflexivity].
  simpl_state. split; [apply lookup_insert_eq |]. split; [reflexivity |].
  split; [reflexivity |]. split.
  - intros k Hk. apply derive_local; [reflexivity |].
    apply lookup_insert_ne. congruence.
  - intros H. rewrite derive_holdings_lookup.
    destruct (tempHoldings _ !! ticker) as [h |] eqn:E; [| discriminate].
    destruct (gtb (th_shares h) 0); [| discriminate].
    intros [= <-]. pose proof (replay_keyedByTicker _ _ _ E) as Hkey.
    unfold keyedByTicker in Hkey. unfold valuation. rewrite Hkey, lookup_insert_eq.
    cbn [h_marketValue h_market h_shares h_isETF].
    destruct (estimate_is_sell_calculation (settings st) (orZero (Some price)) h)
      as [-> ->].
    reflexivity.
Qed.

(** The manual price of AAPL set to 130. *)
Lemma update_price_revalues_one_ticker_witness :
  let st' := updatePrice parseDecimalOrNaN "AAPL" "130" exampleState in
  manualPrices st' !! "AAPL"%string = Some (parseDecimal "130")
  ∧ transactions st' = transactions exampleState
  ∧ realizedGains (deriveState dateKey st')
    = realizedGains (deriveState dateKey exampleState)
  ∧ (∀ k, k ≠ "AAPL"%string →
       holdings (deriveState dateKey st') !! k
       = holdings (deriveState dateKey exampleState) !! k)
  ∧ (∀ H, holdings (deriveState dateKey st') !! "AAPL"%string = Some H →
       h_marketValue H
       = total (calculateTransactionAmount (settings exampleState) sell (h_market H)
                  (orZero (Some (parseDecimal "130"))) (h_shares H) (h_isETF H))).
Proof.
  exact (update_price_revalues_one_ticker parseDecimalOrNaN dateKey "AAPL" "130"
           exampleState).
Defined.

(** * Further properties of the calculator *)

(** X16. The fee is never below the minimum fee of the market and does
    not depend on the side; the fund flag changes nothing on a buy and
    nothing in the foreign market. *)
Theorem fee_has_floor_and_ignores_side (c : AppSettings) (side : TradeType)
    (market : MarketType) (price shares : Q) (isETF : bool) :
  minFeeOf c market
    <= fee (calculateTransactionAmount c side market price shares isETF)
  ∧ fee (calculateTransactionAmount c buy market price shares isETF)
    = fee (calculateTransactionAmount c sell market price shares isETF)
  ∧ calculateTransactionAmount c buy market price shares true
    = calculateTransactionAmount c buy market price shares false
  ∧ calculateTransactionAmount c side US price shares true
    = calculateTransactionAmount c side US price shares false.
Proof.
  split.
  - destruct side, market; cbn; apply Math_max_upper.
  - split; [now destruct market |]. split; [now destruct market |].
    now destruct side.
Qed.

Lemma Math_floor_nonneg (x : Q) : 0 <= x → 0 <= Math_floor x.
Proof.
  intros Hx. unfold Math_floor.
  change 0 with (inject_Z 0). rewrite <- Zle_Qle.
  change 0%Z with (Qfloor (inject_Z 0)) at 1. rewrite Qfloor_Z at 1.
  rewrite <- (Qfloor_Z 0). now apply Qfloor_resp_le.
Qed.

(** X17. In the domestic market the tax of a sell is a whole number, at
    most the unrounded tax and less than 1 below it; the fee is the
    minimum fee or such a whole number for the unrounded discounted fee. *)
Theorem domestic_amounts_are_floored (c : AppSettings) (price shares : Q)
    (isETF : bool) :
  let a := calculateTransactionAmount c sell TW price shares isETF in
  let rate := if isETF then twTaxRateETF c else twTaxRateStock c in
  let rawTax := price * shares * rate in
  let rawFee := price * shares * twFeeRate c * twDiscount c in
  isInteger (tax a) ∧ tax a <= rawTax ∧ rawTax < tax a + 1
  ∧ (fee a = twMinFee c
     ∨ (isInteger (fee a) ∧ fee a <= rawFee ∧ rawFee < fee a + 1)).
Proof.
  cbn. split; [now eexists |].
  split; [apply Math_floor_bounds |]. split; [apply Math_floor_bounds |].
  destruct (Math_max_upper (twMinFee c)
              (Math_floor (price * shares * twFeeRate c * twDiscount c)))
    as (_ & _ & [-> | ->]); [now left | right].
  split; [now eexists |]. apply Math_floor_bounds.
Qed.

(** X18. Under settings without negative fees or rates and for a
    non-negative price and share count, fee and tax are not negative, a buy
    settles at no less than the gross amount and a sell at no more. *)
Theorem settlement_brackets_gross (c : AppSettings) (side : TradeType)
    (market : MarketType) (price shares : Q) (isETF : bool) :
  settingsNonNegative c → 0 <= price → 0 <= shares →
  let a := calculateTransactionAmount c side market price shares isETF in
  0 <= fee a ∧ 0 <= tax a
  ∧ total (calculateTransactionAmount c sell market price shares isETF)
    <= price * shares
  ∧ price * shares
    <= total (calculateTransactionAmount c buy market price shares isETF).
Proof.
  intros (Hfr & Hd & Hts & Hte & Htw & Hur & Hus & Hut) Hp Hs.
  assert (Hraw : 0 <= price * shares) by now apply Qmult_le_0_compat.
  assert (Hfee : ∀ s, 0 <= fee (calculateTransactionAmount c s market price shares isETF)).
  { intros s. destruct s, market; cbn;
      match goal with
      | |- 0 <= Math_max ?m ?x => pose proof (Math_max_upper m x) as (H & _ & _)
      end; lra. }
  assert (Htax : ∀ s, 0 <= tax (calculateTransactionAmount c s market price shares isETF)).
  { intros s. destruct s, market; cbn; try apply Qle_refl.
    - apply Math_floor_nonneg. apply Qmult_le_0_compat; [exact Hraw |].
      now destruct isETF.
    - now apply Qmult_le_0_compat. }
  cbv zeta. split; [apply Hfee |]. split; [apply Htax |].
  specialize (Hfee sell) as Hfs. specialize (Hfee buy) as Hfb.
  specialize (Htax sell) as Hxs.
  split.
  - destruct market; cbn in *; lra.
  - destruct market; cbn in *; lra.
Qed.

(** A domestic fund sell of 1000 shares at 100 under the default
    settings. *)
Lemma settlement_brackets_gross_witness :
  let a := calculateTransactionAmount DEFAULT_SETTINGS sell TW 100 1000 true in
  0 <= fee a ∧ 0 <= tax a
  ∧ total (calculateTransactionAmount DEFAULT_SETTINGS sell TW 100 1000 true)
    <= 100 * 1000
  ∧ 100 * 1000
    <= total (calculateTransactionAmount DEFAULT_SETTINGS buy TW 100 1000 true).
Proof.
  apply (settlement_brackets_gross DEFAULT_SETTINGS sell TW 100 1000 true).
  - repeat split; discriminate.
  - discriminate.
  - discriminate.
Defined.

(** * The lists on display *)

Section SortAny.
Context {A : Type} (compareFn : A → A → Z).

Lemma sortInsert_Permutation_any (x : A) (l : list A) :
  Permutation (sortInsert compareFn x l) (x :: l).
Proof.
  induction l as [| y l IH]; cbn; [reflexivity |].
  destruct (compareFn x y <=? 0)%Z; [reflexivity |].
  rewrite IH. apply perm_swap.
Qed.

Lemma Array_sort_Permutation_any (l : list A) :
  Permutation (Array_sort compareFn l) l.
Proof.
  induction l as [| x l IH]; cbn; [reflexivity |].
  rewrite sortInsert_Permutation_any. now constructor.
Qed.


Lemma sortInsert_sorted_any (R : A → A → Prop) (x : A) (l : list A) :
  (∀ a b, R a b ↔ (compareFn a b <= 0)%Z) →
  (∀ a b, ¬ R a b → R b a) →
  (∀ a b d, R a b → R b d → R a d) →
  StronglySorted R l → StronglySorted R (sortInsert compareFn x l).
Proof.
  intros Hcmp Htotal Htrans. induction 1 as [| y l Hl IH Hy]; cbn.
  - repeat constructor.
  - destruct (Z.leb_spec (compareFn x y) 0) as [Hle | Hgt].
    + apply Hcmp in Hle. constructor; [now constructor |].
      constructor; [exact Hle |].
      eapply Forall_impl; [exact Hy |]. intros z Hz. cbn in Hz. eauto.
    + constructor; [exact IH |].
      rewrite (sortInsert_Permutation_any x l).
      constructor; [| exact Hy]. apply Htotal. rewrite Hcmp. lia.
Qed.

Lemma Array_sort_sorted_any (R : A → A → Prop) (l : list A) :
  (∀ a b, R a b ↔ (compareFn a b <= 0)%Z) →
  (∀ a b, ¬ R a b → R b a) →
  (∀ a b d, R a b → R b d → R a d) →
  StronglySorted R (Array_sort compareFn l).
Proof.
  intros Hcmp Htotal Htrans. induction l as [| x l IH]; cbn; [constructor |].
  now apply sortInsert_sorted_any.
Qed.
End SortAny.



(** X20. Sorting a table by a column neither drops nor repeats a row,
    whatever the order on the values is, and without a sort configuration
    the rows stay as they are. *)
Theorem sorted_data_is_rearrangement {T V : Type} (field : string → T → V)
    (ltb : V → V → bool) (sortConfig : option (string * Direction))
    (data : list T) :
  Permutation (getSortedData field ltb sortConfig data) data
  ∧ length (getSortedData field ltb sortConfig data) = length data
  ∧ getSortedData field ltb None data = data.
Proof.
  assert (Hperm : Permutation (getSortedData field ltb sortConfig data) data).
  { destruct sortConfig as [[key direction] |]; cbn; [| reflexivity].
    apply Array_sort_Permutation_any. }
  split; [exact Hperm |]. split; [now apply Permutation_length | reflexivity].
Qed.

(** X21. When [<] on the values of the column never holds both ways and
    "not greater" is transitive, the sorted table is in the order of the
    column: ascending, no row is greater than a later row; descending, no
    row is less than a later row. *)
Theorem sorted_data_is_in_column_order {T V : Type} (field : string → T → V)
    (ltb : V → V → bool) (key : string) (direction : Direction) (data : list T) :
  (∀ x y, ltb x y = true → ltb y x = false) →
  (∀ x y z, ltb y x = false → ltb z y = false → ltb z x = false) →
  StronglySorted (inColumnOrder field ltb key direction)
    (getSortedData field ltb (Some (key, direction)) data).
Proof.
  intros Hasym Htrans. cbn.
  apply Array_sort_sorted_any.
  - intros a b. unfold inColumnOrder, sortComparator.
    destruct direction;
      destruct (ltb (field key a) (field key b)) eqn:Eab;
      destruct (ltb (field key b) (field key a)) eqn:Eba;
      try (apply Hasym in Eab; congruence); split; (lia || congruence).
  - intros a b Hab. unfold inColumnOrder in *. destruct direction.
    + apply Hasym. now destruct (ltb (field key b) (field key a)).
    + apply Hasym. now destruct (ltb (field key a) (field key b)).
  - intros a b d. unfold inColumnOrder. destruct direction; eauto.
Qed.

(** A column of whole numbers, sorted downwards. *)
Lemma sorted_data_is_in_column_order_witness :
  StronglySorted (inColumnOrder (λ _ (x : Z), x) Z.ltb "shares" desc)
    (getSortedData (λ _ (x : Z), x) Z.ltb (Some ("shares"%string, desc))
       [3; 1; 2]%Z).
Proof.
  apply (sorted_data_is_in_column_order (λ _ (x : Z), x) Z.ltb "shares" desc
           [3; 1; 2]%Z).
  - intros x y H. apply Z.ltb_lt in H. apply Z.ltb_ge. lia.
  - intros x y z H1 H2. apply Z.ltb_ge in H1, H2. apply Z.ltb_ge. lia.
Defined.

(** X22. A request to sort by a column selects that column; a second
    request for the same column reverses the direction and a third
    restores it; a request for another column then sorts downwards. *)
Theorem request_sort_toggles_direction (key : string)
    (sortConfig : option (string * Direction)) :
  let first := requestSort key sortConfig in
  let second := requestSort key first in
  fst <$> first = Some key
  ∧ fst <$> second = Some key
  ∧ snd <$> second ≠ snd <$> first
  ∧ requestSort key second = first
  ∧ ∀ other, other ≠ key → requestSort other first = Some (other, desc).
Proof.
  unfold requestSort.
  destruct sortConfig as [[k [|]] |]; cbn;
    repeat (case_decide; try congruence); cbn;
    repeat split; try congruence;
    intros other Hne; repeat (case_decide; try congruence).
Qed.

(** Requests for the column of the shares, from no sort at all. *)
Lemma request_sort_toggles_direction_witness :
  let first := requestSort "shares" None in
  let second := requestSort "shares" first in
  fst <$> first = Some "shares"%string
  ∧ fst <$> second = Some "shares"%string
  ∧ snd <$> second ≠ snd <$> first
  ∧ requestSort "shares" second = first
  ∧ ∀ other, other ≠ "shares"%string → requestSort other first = Some (other, desc).
Proof.
  exact (request_sort_toggles_direction "shares" None).
Defined.

(** ** The totals of the dashboard *)

Lemma fold_left_sum {A : Type} (f : A → Q) (l : list A) (a : Q) :
  fold_left (λ sum h, sum + f h) l a == a + sumQ (f <$> l).
Proof.
  revert a. induction l as [| x l IH]; intros a.
  - unfold sumQ. cbn. ring.
  - cbn [fold_left]. rewrite IH, fmap_cons, sumQ_cons. ring.
Qed.

Lemma sumQ_sub {A : Type} (f g h : A → Q) (l : list A) :
  Forall (λ a, h a = f a - g a) l →
  sumQ (f <$> l) - sumQ (g <$> l) == sumQ (h <$> l).
Proof.
  induction 1 as [| x l Hx _ IH].
  - unfold sumQ. cbn. ring.
  - rewrite !fmap_cons, !sumQ_cons, Hx, <- IH. ring.
Qed.

Lemma sumQ_by_market (f : Holding → Q) (l : list Holding) :
  sumQ (f <$> filter (λ h, isMarket TW h = true) l)
  + sumQ (f <$> filter (λ h, isMarket US h = true) l)
  == sumQ (f <$> l).
Proof.
  induction l as [| x l IH]; [unfold sumQ; cbn; ring |].
  rewrite !filter_cons, fmap_cons, sumQ_cons, <- IH.
  destruct (decide (isMarket TW x = true)) as [Htw | Htw],
           (decide (isMarket US x = true)) as [Hus | Hus];
    unfold isMarket in Htw, Hus; destruct (h_market x); try congruence;
    rewrite ?fmap_cons, ?sumQ_cons; ring.
Qed.

Lemma holdingsArray_valued (getTime : string → Z) (log : list Transaction)
    (prices : gmap string Q) (c : AppSettings) :
  Forall (λ H, h_unrealizedPL H = h_marketValue H - h_totalCost H)
    (holdingsArray (derive getTime log prices c)).
Proof.
  apply Forall_forall. intros H HH. unfold holdingsArray in HH.
  apply list_elem_of_fmap in HH as ([k H'] & -> & HH).
  apply elem_of_map_to_list in HH. rewrite derive_holdings_lookup in HH.
  destruct (tempHoldings _ !! k) as [h |]; [| discriminate].
  destruct (gtb (th_shares h) 0); [| discriminate].
  now injection HH as <-.
Qed.

(** X23. The unrealized profit of a market on the dashboard is the sum of
    the unrealized profits of the holdings of that market, and the two
    markets together account for the market value and the cost basis of
    every holding. *)
Theorem dashboard_totals_add_up (getTime : string → Z) (log : list Transaction)
    (prices : gmap string Q) (c : AppSettings) :
  let rows := holdingsArray (derive getTime log prices c) in
  let tw := (stats rows).1 in
  let us := (stats rows).2 in
  s_unrealizedPL tw
    == sumQ (h_unrealizedPL <$> filter (λ h, isMarket TW h = true) rows)
  ∧ s_unrealizedPL us
    == sumQ (h_unrealizedPL <$> filter (λ h, isMarket US h = true) rows)
  ∧ s_marketValue tw + s_marketValue us == sumQ (h_marketValue <$> rows)
  ∧ s_totalCost tw + s_totalCost us == sumQ (h_totalCost <$> rows)
  ∧ s_unrealizedPL tw + s_unrealizedPL us == sumQ (h_unrealizedPL <$> rows).
Proof.
  intros rows tw us.
  pose proof (holdingsArray_valued getTime log prices c) as Hrows.
  fold rows in Hrows.
  assert (Hsub : ∀ m, Forall (λ H, h_unrealizedPL H = h_marketValue H - h_totalCost H)
                   (filter (λ h, isMarket m h = true) rows)).
  { intros m. apply Forall_forall. intros H HH.
    apply list_elem_of_filter in HH as [_ HH].
    rewrite Forall_forall in Hrows. now apply Hrows. }
  assert (Htw : s_unrealizedPL tw
            == sumQ (h_unrealizedPL <$> filter (λ h, isMarket TW h = true) rows)).
  { unfold tw, stats, calc. cbn [fst s_unrealizedPL].
    rewrite !fold_left_sum, <- (sumQ_sub _ _ _ _ (Hsub TW)). ring. }
  assert (Hus : s_unrealizedPL us
            == sumQ (h_unrealizedPL <$> filter (λ h, isMarket US h = true) rows)).
  { unfold us, stats, calc. cbn [snd s_unrealizedPL].
    rewrite !fold_left_sum, <- (sumQ_sub _ _ _ _ (Hsub US)). ring. }
  split; [exact Htw |]. split; [exact Hus |].
  split; [| split].
  - unfold tw, us, stats, calc. cbn [fst snd s_marketValue].
    rewrite !fold_left_sum, <- (sumQ_by_market h_marketValue rows). ring.
  - unfold tw, us, stats, calc. cbn [fst snd s_totalCost].
    rewrite !fold_left_sum, <- (sumQ_by_market h_totalCost rows). ring.
  - rewrite Htw, Hus. apply sumQ_by_market.
Qed.
